(** * LibraDesk: the lending engine of [Assessment3/Assessment.py]

    A shallow embedding of the database layer ([LibraryDB]) and of the
    overdue report of the GUI ([LibraDeskApp._overdue_list]).

    Modelling conventions.
    - Python [int] and SQLite INTEGER columns are [Z]. The database layer is
      given twice: first over mathematical integers, then, in [Py], with the
      conversions of the interpreter, which raise OverflowError for an [int]
      that does not fit a 64-bit INTEGER and for a [datetime] out of range.
      SQL's [available + 1] and [available - 1] are taken in [Z], which is
      what SQLite computes as long as the result fits 64 bits.
    - Python [str] is [string], a sequence of 8-bit characters. The classes
      [\d], [\w] and the white space of [strip] are given on ASCII, where
      Python's Unicode-aware classes agree with them; statements that
      characterise what is accepted are made for ASCII text ([ascii_only]).
    - A [datetime] is the number of microseconds since an epoch midnight, a
      [date] is a day number; the TEXT a date or datetime is stored as (its
      [isoformat]) is identified with the value it parses back to.
    - A table with an INTEGER PRIMARY KEY is a finite map from the key to the
      remaining columns of the row.
    - [datetime.now()] and the failures of the storage engine are inputs of
      every operation, gathered in an environment [env]. *)

From Stdlib Require Import ZArith String Ascii List Lia DecimalString.
From stdpp Require Import gmap sorting strings.

Local Open Scope Z_scope.

(** ** Regular expressions, as far as the two validators use them *)

Module Re.

Inductive regex : Type :=
| Bol                                              (* ^ *)
| Eol                                              (* $ *)
| Cls (p : ascii → bool)                           (* one character of a class *)
| Rep (p : ascii → bool) (lo : nat) (hi : option nat)  (* class{lo,hi}; class+ *)
| Seq (r1 r2 : regex)
| Alt (r1 r2 : regex)                              (* r1|r2 *)
| Opt (r : regex).                                 (* (r)? *)

Definition in_range (lo hi c : ascii) : bool :=
  (nat_of_ascii lo <=? nat_of_ascii c)%nat && (nat_of_ascii c <=? nat_of_ascii hi)%nat.

Definition chr (a : ascii) : ascii → bool := Ascii.eqb a.

(* \d, on ASCII. On a str Python's \d also takes the decimal digits of
   other scripts; these lie outside ASCII, see [ascii_only]. *)
Definition digit (c : ascii) : bool := in_range "0" "9" c.

(* \w, on ASCII; Python's \w also takes the letters and digits of other
   scripts. *)
Definition word (c : ascii) : bool :=
  in_range "a" "z" c || in_range "A" "Z" c || digit c || chr "_" c.

Definition newline : ascii := ascii_of_nat 10.

Definition more (hi : option nat) : bool :=
  match hi with Some O => false | _ => true end.

Definition less (hi : option nat) : option nat :=
  match hi with Some n => Some (Nat.pred n) | None => None end.

(* A repeated class: take one more character when the class and the upper
   bound allow it, or stop here when the lower bound is reached. *)
Fixpoint rep (p : ascii → bool) (lo : nat) (hi : option nat)
    (pos : nat) (s : list ascii) (k : nat → list ascii → bool) : bool :=
  match s with
  | c :: s' =>
      (p c && more hi && rep p (Nat.pred lo) (less hi) (S pos) s' k)
      || (Nat.eqb lo 0 && k pos s)
  | [] => Nat.eqb lo 0 && k pos s
  end.

(* Backtracking matcher: [pos] is the number of characters consumed so far,
   [s] what is left, [k] what must still match. Without re.MULTILINE, ^
   holds at position 0 only and $ at the end of the string or just before a
   newline that ends it. *)
Fixpoint run (r : regex) (pos : nat) (s : list ascii)
    (k : nat → list ascii → bool) : bool :=
  match r with
  | Bol => Nat.eqb pos 0 && k pos s
  | Eol =>
      match s with
      | [] => k pos s
      | [c] => Ascii.eqb c newline && k pos s
      | _ => false
      end
  | Cls p => match s with c :: s' => p c && k (S pos) s' | [] => false end
  | Rep p lo hi => rep p lo hi pos s k
  | Seq r1 r2 => run r1 pos s (λ pos' s', run r2 pos' s' k)
  | Alt r1 r2 => run r1 pos s k || run r2 pos s k
  | Opt r1 => run r1 pos s k || k pos s
  end.

(* re.match(pattern, s) is not None *)
Definition re_match (r : regex) (s : string) : bool :=
  run r 0%nat (list_ascii_of_string s) (λ _ _, true).

Declare Scope re_scope.
Delimit Scope re_scope with re.
Bind Scope re_scope with regex.
Notation "r1 ;; r2" := (Seq r1 r2) (at level 100, r2 at level 200, right associativity) : re_scope.

End Re.

(** ** Exceptions *)

(* sqlite3.Error and the subclasses the engine raises. *)
Inductive sqlite3_Error : Type :=
| IntegrityError (msg : string)
| OperationalError (msg : string)
| DatabaseError (msg : string).

(* str(x) *)
Class Str (A : Type) : Type := str : A → string.

#[export] Instance sqlite3_Error_str : Str sqlite3_Error :=
  λ e, match e with
       | IntegrityError msg | OperationalError msg | DatabaseError msg => msg
       end.

#[export] Instance int_str : Str Z := λ n, NilZero.string_of_int (Z.to_int n).

(* The file defines ValidationError and PermissionError; the second is never
   raised. The database layer lets sqlite3.Error through where it has no
   try/except, and nothing catches the OverflowError of the interpreter. *)
Inductive exn : Type :=
| ValidationError (msg : string)
| Sqlite3 (e : sqlite3_Error)
| OverflowError (msg : string).

Inductive result (A : Type) : Type :=
| Ok (a : A)
| Raise (x : exn).
Arguments Ok {A} a.
Arguments Raise {A} x.

(** ** Validators *)

Import Re.

(* [\w\.-] *)
Definition word_dot_dash (c : ascii) : bool := word c || chr "." c || chr "-" c.

(* [\dX] *)
Definition digit_X (c : ascii) : bool := digit c || chr "X" c.

(* r"^[\w\.-]+@[\w\.-]+\.\w+$" *)
Definition email_re : regex :=
  (Bol ;; Rep word_dot_dash 1 None ;; Cls (chr "@") ;;
   Rep word_dot_dash 1 None ;; Cls (chr ".") ;; Rep word 1 None ;; Eol)%re.

(* r"^(97(8|9))?\d{9}(\d|X)$|^\d{1,5}-\d{1,7}-\d{1,7}-[\dX]$" *)
Definition isbn_re : regex :=
  Alt
    (Bol ;; Opt (Cls (chr "9") ;; Cls (chr "7") ;; Alt (Cls (chr "8")) (Cls (chr "9"))) ;;
     Rep digit 9 (Some 9%nat) ;; Alt (Cls digit) (Cls (chr "X")) ;; Eol)%re
    (Bol ;; Rep digit 1 (Some 5%nat) ;; Cls (chr "-") ;;
     Rep digit 1 (Some 7%nat) ;; Cls (chr "-") ;;
     Rep digit 1 (Some 7%nat) ;; Cls (chr "-") ;;
     Cls digit_X ;; Eol)%re.

Definition _validate_email (email : string) : result unit :=
  if negb (re_match email_re email) then Raise (ValidationError "Invalid email format")
  else Ok tt.

Definition _validate_isbn (isbn : string) : result unit :=
  if negb (re_match isbn_re isbn) then Raise (ValidationError "Invalid ISBN")
  else Ok tt.


(** ** Time *)

Abbreviation datetime := Z (only parsing).
Abbreviation date := Z (only parsing).

Definition us_per_day : Z := 86400000000.

(* dt.date() *)
Definition date_of (dt : datetime) : date := dt / us_per_day.

(* datetime.fromisoformat(d + "T00:00:00"); also datetime.fromisoformat(d) *)
Definition midnight (d : date) : datetime := d * us_per_day.

(* timedelta(days=n), as a duration in microseconds *)
Definition timedelta (days : Z) : Z := days * us_per_day.

(* delta.days: a timedelta is normalised with 0 <= seconds < 86400, so its
   days field is the floor of the duration *)
Definition days (delta : Z) : Z := delta / us_per_day.

(** ** Data classes *)

Module Member.
Record t : Type := mk { name : string; email : string; member_id : option Z }.
End Member.

Module Book.
Record t : Type :=
  mk { title : string; author : string; genre : string; isbn : string;
       available : Z; book_id : option Z }.
End Book.

(** ** The database: three tables and their AUTOINCREMENT counters *)

Record members_row : Type := { name : string; email : string }.

Record books_row : Type :=
  { title : string; author : string; genre : string; isbn : string; available : Z }.

Record transactions_row : Type :=
  { member_id : Z; book_id : Z; borrow_date : datetime; due_date : date;
    return_date : option date; fine : Z }.

Record db : Type :=
  { members : gmap Z members_row;
    books : gmap Z books_row;
    transactions : gmap Z transactions_row;
    seq_members : Z; seq_books : Z; seq_transactions : Z }.

(* The database _init_schema leaves behind on first use. *)
Definition empty_db : db :=
  {| members := ∅; books := ∅; transactions := ∅;
     seq_members := 0; seq_books := 0; seq_transactions := 0 |}.

Definition max_rowid {A} (t : gmap Z A) : Z := map_fold (λ k _ acc, Z.max k acc) 0 t.

(* AUTOINCREMENT: one more than the largest rowid the table has ever held. *)
Definition next_rowid {A} (seq : Z) (t : gmap Z A) : Z := Z.max seq (max_rowid t) + 1.

Definition add_available (d : Z) (r : books_row) : books_row :=
  {| title := title r; author := author r; genre := genre r; isbn := isbn r;
     available := available r + d |}.

Definition close_row (d : date) (f : Z) (r : transactions_row) : transactions_row :=
  {| member_id := member_id r; book_id := book_id r; borrow_date := borrow_date r;
     due_date := due_date r; return_date := Some d; fine := f |}.

(* isbn TEXT NOT NULL UNIQUE *)
Definition isbn_in_use (t : gmap Z books_row) (i : string) : bool :=
  existsb (λ kr, String.eqb (isbn kr.2) i) (map_to_list t).

(** ** Environment of a call: the clock and the storage engine

    [fault e i] is the error, if any, with which the storage engine fails the
    [i]-th statement of the call; the commit that ends a [with self.conn]
    block counts as the statement after the last [execute]. *)

Record env : Type := { now : datetime; fault : nat → option sqlite3_Error }.

Definition healthy (t : datetime) : env := {| now := t; fault := λ _, None |}.

(** ** Statements on the connection *)

Definition txn (A : Type) : Type := db → result A * db.

Definition ret {A} (a : A) : txn A := λ w, (Ok a, w).

Definition raise {A} (x : exn) : txn A := λ w, (Raise x, w).

Definition bind {A B} (m : txn A) (k : A → txn B) : txn B :=
  λ w, match m w with
       | (Ok a, w') => k a w'
       | (Raise x, w') => (Raise x, w')
       end.

Declare Scope txn_scope.
Delimit Scope txn_scope with txn.
Notation "x <- m ;; k" := (bind m (λ x, k))
  (at level 100, m at next level, right associativity) : txn_scope.

(* self.conn.execute(sql, args), the i-th of the call, from the point where
   the engine has the statement with its parameters bound; [Py.execute] has
   the binding before it. *)
Definition execute {A} (e : env) (i : nat) (sql : txn A) : txn A :=
  λ w, match fault e i with
       | Some err => (Raise (Sqlite3 err), w)
       | None => sql w
       end.

(* with self.conn: commit when the block ends normally, roll back and
   re-raise when it raises; a commit that fails is rolled back as well. *)
Definition with_conn {A} (e : env) (commit : nat) (body : txn A) (s : db) : result A * db :=
  match body s with
  | (Ok a, w) =>
      match fault e commit with
      | Some err => (Raise (Sqlite3 err), s)
      | None => (Ok a, w)
      end
  | (Raise x, _) => (Raise x, s)
  end.

(* except sqlite3.Error as e: raise ValidationError(f"DB error: {e}") *)
Definition except_sqlite3_Error {A} (r : result A * db) : result A * db :=
  match r with
  | (Raise (Sqlite3 e), s) => (Raise (ValidationError ("DB error: " +:+ str e)), s)
  | _ => r
  end.

(* INSERT INTO members(name,email) VALUES(?,?); lastrowid *)
Definition insert_member (n em : string) : txn Z :=
  λ w, let id := next_rowid (seq_members w) (members w) in
       (Ok id,
        {| members := <[id := {| name := n; email := em |}]> (members w);
           books := books w; transactions := transactions w;
           seq_members := id; seq_books := seq_books w;
           seq_transactions := seq_transactions w |}).

(* UPDATE members SET name=?, email=? WHERE member_id=? *)
Definition update_member_row (id : Z) (n em : string) : txn unit :=
  λ w, (Ok tt,
        {| members := alter (λ _, {| name := n; email := em |}) id (members w);
           books := books w; transactions := transactions w;
           seq_members := seq_members w; seq_books := seq_books w;
           seq_transactions := seq_transactions w |}).

Definition set_books (t : gmap Z books_row) (w : db) : db :=
  {| members := members w; books := t; transactions := transactions w;
     seq_members := seq_members w; seq_books := seq_books w;
     seq_transactions := seq_transactions w |}.

Definition set_transactions (t : gmap Z transactions_row) (w : db) : db :=
  {| members := members w; books := books w; transactions := t;
     seq_members := seq_members w; seq_books := seq_books w;
     seq_transactions := seq_transactions w |}.

(* INSERT INTO books(title,author,genre,isbn,available) VALUES(?,?,?,?,?); lastrowid *)
Definition insert_book (r : books_row) : txn Z :=
  λ w, if isbn_in_use (books w) (isbn r)
       then (Raise (Sqlite3 (IntegrityError "UNIQUE constraint failed: books.isbn")), w)
       else
         let id := next_rowid (seq_books w) (books w) in
         (Ok id,
          {| members := members w; books := <[id := r]> (books w);
             transactions := transactions w;
             seq_members := seq_members w; seq_books := id;
             seq_transactions := seq_transactions w |}).

(* UPDATE books SET title=?,author=?,genre=?,isbn=?,available=? WHERE book_id=? *)
Definition update_book_row (id : Z) (r : books_row) : txn unit :=
  λ w, match books w !! id with
       | None => (Ok tt, w)
       | Some _ =>
           if isbn_in_use (delete id (books w)) (isbn r)
           then (Raise (Sqlite3 (IntegrityError "UNIQUE constraint failed: books.isbn")), w)
           else (Ok tt, set_books (<[id := r]> (books w)) w)
       end.

(* SELECT available FROM books WHERE book_id=?; fetchone() *)
Definition select_available (id : Z) : txn (option Z) :=
  λ w, (Ok (available <$> books w !! id), w).

(* UPDATE books SET available=available+d WHERE book_id=? *)
Definition update_available (id d : Z) : txn unit :=
  λ w, (Ok tt, set_books (alter (add_available d) id (books w)) w).

(* INSERT INTO transactions(member_id,book_id,borrow_date,due_date) VALUES(?,?,?,?);
   return_date defaults to NULL and fine to 0. No PRAGMA foreign_keys is
   issued, so the FOREIGN KEY clauses are not enforced. *)
Definition insert_transaction (m b : Z) (borrowed : datetime) (due : date) : txn Z :=
  λ w, let id := next_rowid (seq_transactions w) (transactions w) in
       (Ok id,
        {| members := members w; books := books w;
           transactions :=
             <[id := {| member_id := m; book_id := b; borrow_date := borrowed;
                        due_date := due; return_date := None; fine := 0 |}]>
               (transactions w);
           seq_members := seq_members w; seq_books := seq_books w;
           seq_transactions := id |}).

(* SELECT * FROM transactions WHERE tx_id=?; fetchone() *)
Definition select_transaction (id : Z) : txn (option transactions_row) :=
  λ w, (Ok (transactions w !! id), w).

(* UPDATE transactions SET return_date=?, fine=? WHERE tx_id=? *)
Definition update_returned (id : Z) (d : date) (f : Z) : txn unit :=
  λ w, (Ok tt, set_transactions (alter (close_row d f) id (transactions w)) w).

(** ** LibraryDB *)

Local Open Scope txn_scope.

Definition add_member (e : env) (m : Member.t) (s : db) : result Z * db :=
  match _validate_email (Member.email m) with
  | Raise x => (Raise x, s)
  | Ok _ => with_conn e 1 (execute e 0 (insert_member (Member.name m) (Member.email m))) s
  end.

Definition update_member (e : env) (id : Z) (n em : string) (s : db) : result unit * db :=
  match _validate_email em with
  | Raise x => (Raise x, s)
  | Ok _ => with_conn e 1 (execute e 0 (update_member_row id n em)) s
  end.

Definition add_book (e : env) (b : Book.t) (s : db) : result Z * db :=
  match _validate_isbn (Book.isbn b) with
  | Raise x => (Raise x, s)
  | Ok _ =>
      with_conn e 1
        (execute e 0
           (insert_book {| title := Book.title b; author := Book.author b;
                           genre := Book.genre b; isbn := Book.isbn b;
                           available := Book.available b |})) s
  end.

Definition update_book (e : env) (id : Z) (t a g i : string) (av : Z) (s : db)
    : result unit * db :=
  match _validate_isbn i with
  | Raise x => (Raise x, s)
  | Ok _ =>
      with_conn e 1
        (execute e 0
           (update_book_row id {| title := t; author := a; genre := g; isbn := i;
                                  available := av |})) s
  end.

Definition borrow_book (e : env) (m b : Z) (loan_days : Z) (s : db) : result unit * db :=
  except_sqlite3_Error
    (with_conn e 3
       (book <- execute e 0 (select_available b) ;;
        if match book with None => true | Some av => av <=? 0 end
        then raise (ValidationError "Book not available")
        else
          _ <- execute e 1 (update_available b (-1)) ;;
          let now_ := now e in
          let due := now_ + timedelta loan_days in
          _ <- execute e 2 (insert_transaction m b now_ (date_of due)) ;;
          ret tt) s).

Definition return_book (e : env) (tx_id : Z) (fine_per_day : Z) (s : db) : result Z * db :=
  except_sqlite3_Error
    (with_conn e 3
       (tx <- execute e 0 (select_transaction tx_id) ;;
        match tx with
        | None => raise (ValidationError "Invalid transaction or already returned")
        | Some row =>
            match return_date row with
            | Some _ => raise (ValidationError "Invalid transaction or already returned")
            | None =>
                let due := midnight (due_date row) in
                let today := now e in
                let overdue_days := Z.max (days (today - due)) 0 in
                let fine_ := overdue_days * fine_per_day in
                _ <- execute e 1 (update_returned tx_id (date_of today) fine_) ;;
                _ <- execute e 2 (update_available (book_id row) 1) ;;
                ret fine_
            end
        end) s).

(* SELECT t.*, m.name as member_name, b.title as book_title
   FROM transactions t JOIN members m ON m.member_id=t.member_id
                       JOIN books b ON b.book_id=t.book_id *)
Record joined_row : Type :=
  { tx_id : Z; t_cols : transactions_row; member_name : string; book_title : string }.

Definition join (s : db) (kt : Z * transactions_row) : option joined_row :=
  match members s !! member_id kt.2, books s !! book_id kt.2 with
  | Some m, Some b =>
      Some {| tx_id := kt.1; t_cols := kt.2; member_name := name m; book_title := title b |}
  | _, _ => None
  end.

(* ORDER BY t.tx_id DESC *)
Definition tx_id_desc (r1 r2 : joined_row) : Prop := tx_id r2 ≤ tx_id r1.

#[export] Instance tx_id_desc_dec r1 r2 : Decision (tx_id_desc r1 r2) :=
  Z_le_dec (tx_id r2) (tx_id r1).

Definition is_open (r : joined_row) : Prop := return_date (t_cols r) = None.

#[export] Instance is_open_dec r : Decision (is_open r) :=
  decide (return_date (t_cols r) = None).

(* ... WHERE t.return_date IS NULL ORDER BY t.tx_id DESC *)
Definition active_loans (s : db) : list joined_row :=
  merge_sort tx_id_desc (filter is_open (omap (join s) (map_to_list (transactions s)))).

(* ... ORDER BY t.tx_id DESC *)
Definition history (s : db) : list joined_row :=
  merge_sort tx_id_desc (omap (join s) (map_to_list (transactions s))).

(** ** The overdue report of the GUI *)

(* for r in rows: ... out.append(...) *)
Fixpoint overdue_loop (today : date) (rows : list joined_row)
    (out : list (string * string * string * string))
    : list (string * string * string * string) :=
  match rows with
  | [] => out
  | r :: rows' =>
      let due := date_of (midnight (due_date (t_cols r))) in
      if due <? today
      then overdue_loop today rows'
             (out ++ [("Overdue", member_name r, book_title r,
                       str (days (timedelta (today - due))) +:+ " days")])
      else overdue_loop today rows' out
  end.

(* The rows _overdue_list hands to _fill_search. *)
Definition _overdue_list (e : env) (s : db) : list (string * string * string * string) :=
  let today := date_of (now e) in
  overdue_loop today (active_loans s) [].

(** ** Calls of the interface and the states they lead to *)

Inductive call : Type :=
| AddMember (m : Member.t)
| UpdateMember (id : Z) (n em : string)
| AddBook (b : Book.t)
| UpdateBook (id : Z) (t a g i : string) (av : Z)
| BorrowBook (m b loan_days : Z)
| ReturnBook (tx fine_per_day : Z).

(* The database after a call, whether it returned or raised. *)
Definition perform (e : env) (c : call) (s : db) : db :=
  match c with
  | AddMember m => (add_member e m s).2
  | UpdateMember id n em => (update_member e id n em s).2
  | AddBook b => (add_book e b s).2
  | UpdateBook id t a g i av => (update_book e id t a g i av s).2
  | BorrowBook m b d => (borrow_book e m b d s).2
  | ReturnBook tx f => (return_book e tx f s).2
  end.

Inductive reachable : db → Prop :=
| reach_init : reachable empty_db
| reach_call e c s : reachable s → reachable (perform e c s).

(* The two calls of the lending ledger. *)
Inductive lending : Type :=
| Borrow (m b loan_days : Z)
| Return (tx fine_per_day : Z).

Definition as_call (x : lending) : call :=
  match x with
  | Borrow m b d => BorrowBook m b d
  | Return tx f => ReturnBook tx f
  end.

Fixpoint lend (l : list (env * lending)) (s : db) : db :=
  match l with
  | [] => s
  | (e, x) :: l' => lend l' (perform e (as_call x) s)
  end.

(* The number of copies of book [b] out on loan: its transactions with a
   NULL return_date. *)
Definition on_loan (s : db) (b : Z) : nat :=
  size (filter (λ kt, book_id kt.2 = b ∧ return_date kt.2 = None) (transactions s)).

(** ** Notions used in the statements *)

Definition db_error {A} (err : sqlite3_Error) (s : db) : result A * db :=
  (Raise (ValidationError ("DB error: " +:+ str err)), s).

Definition new_loan (e : env) (m b loan_days : Z) : transactions_row :=
  {| member_id := m; book_id := b; borrow_date := now e;
     due_date := date_of (now e + timedelta loan_days);
     return_date := None; fine := 0 |}.

Definition as_row (b : Book.t) : books_row :=
  {| title := Book.title b; author := Book.author b; genre := Book.genre b;
     isbn := Book.isbn b; available := Book.available b |}.

(* A transaction of book [b] with a NULL return_date. *)
Definition lent (b : Z) (kt : Z * transactions_row) : Prop :=
  book_id kt.2 = b ∧ return_date kt.2 = None.

(* Every isbn in books passed _validate_isbn, and every transaction names a
   book that exists. *)
Record consistent (s : db) : Prop :=
  { isbns_valid : ∀ k r, books s !! k = Some r → _validate_isbn (isbn r) = Ok tt;
    loans_have_books : ∀ k t, transactions s !! k = Some t → is_Some (books s !! book_id t) }.

(* The invariant of book [b] registered with [n] copies. *)
Definition reconciled (n b : Z) (s : db) : Prop :=
  ∃ r, books s !! b = Some r
       ∧ available r + Z.of_nat (on_loan s b) = n
       ∧ 0 ≤ available r.

Definition report_row : Type := string * string * string * string.

(* What one pass of the loop of _overdue_list appends for row [r]. *)
Definition overdue_entry (today : date) (r : joined_row) : option report_row :=
  let due := date_of (midnight (due_date (t_cols r))) in
  if due <? today
  then Some ("Overdue", member_name r, book_title r,
             str (days (timedelta (today - due))) +:+ " days")
  else None.

(* An open loan that is overdue and whose member and book rows exist. *)
Definition overdue_loan (e : env) (s : db) (kt : Z * transactions_row) : Prop :=
  return_date kt.2 = None
  ∧ is_Some (members s !! member_id kt.2)
  ∧ is_Some (books s !! book_id kt.2)
  ∧ due_date kt.2 < date_of (now e).

#[export] Instance overdue_loan_dec e s kt : Decision (overdue_loan e s kt).
Proof. unfold overdue_loan. apply _. Defined.

(** ** Worked examples *)

Definition clean_code : Book.t :=
  Book.mk "Clean Code" "Robert C. Martin" "Software" "9780132350884" 2 None.

Definition alice : Member.t := Member.mk "Alice Sharma" "alice@example.com" None.

Definition noon (d : date) : datetime := midnight d + 43200000000.

Definition seeded : db :=
  (add_book (healthy (noon 100)) clean_code
     (add_member (healthy (noon 100)) alice empty_db).2).2.

(* The storage engine that fails the n-th statement of a call. *)
Definition failing (t : datetime) (n : nat) (err : sqlite3_Error) : env :=
  {| now := t; fault := λ i, if Nat.eqb i n then Some err else None |}.

Definition lent_twice : db :=
  (borrow_book (healthy (noon 102)) 77 1 7
     (borrow_book (healthy (noon 101)) 1 1 7 seeded).2).2.

Definition round_trip : list (env * lending) :=
  [ (healthy (noon 101), Borrow 1 1 7);
    (healthy (noon 102), Borrow 77 1 7);
    (healthy (noon 103), Borrow 1 1 7);
    (healthy (noon 111), Return 1 5);
    (failing (noon 112) 2 (OperationalError "disk I/O error"), Return 2 5);
    (healthy (noon 113), Return 1 5) ].

(** ** The interface as a whole *)

(* The exception a call ends with, if any. *)
Definition raised {A} (r : result A) : option exn :=
  match r with
  | Ok _ => None
  | Raise x => Some x
  end.

(* A call of the interface: the exception it raises, if any, and the database
   it leaves. *)
Definition invoke (e : env) (c : call) (s : db) : option exn * db :=
  match c with
  | AddMember m => let r := add_member e m s in (raised r.1, r.2)
  | UpdateMember id n em => let r := update_member e id n em s in (raised r.1, r.2)
  | AddBook b => let r := add_book e b s in (raised r.1, r.2)
  | UpdateBook id t a g i av => let r := update_book e id t a g i av s in (raised r.1, r.2)
  | BorrowBook m b d => let r := borrow_book e m b d s in (raised r.1, r.2)
  | ReturnBook tx f => let r := return_book e tx f s in (raised r.1, r.2)
  end.

(* The calls of the catalogue, with the text their validator checks. *)
Definition validated (c : call) : option (result unit) :=
  match c with
  | AddMember m => Some (_validate_email (Member.email m))
  | UpdateMember _ _ em => Some (_validate_email em)
  | AddBook b => Some (_validate_isbn (Book.isbn b))
  | UpdateBook _ _ _ _ i _ => Some (_validate_isbn i)
  | BorrowBook _ _ _ | ReturnBook _ _ => None
  end.

(* No two rows of books carry the same isbn. *)
Definition isbn_unique (s : db) : Prop :=
  ∀ k1 k2 r1 r2,
    books s !! k1 = Some r1 → books s !! k2 = Some r2 → isbn r1 = isbn r2 → k1 = k2.

(* Every email in members passed _validate_email. *)
Definition emails_valid (s : db) : Prop :=
  ∀ k r, members s !! k = Some r → _validate_email (email r) = Ok tt.


Definition two_books : db :=
  (add_book (healthy (noon 100))
     (Book.mk "Python Crash Course" "Eric Matthes" "Programming" "9781593276034" 3 None)
     seeded).2.

(* Alice has borrowed both copies. *)
Definition two_loans : db :=
  (borrow_book (healthy (noon 102)) 1 1 7
     (borrow_book (healthy (noon 101)) 1 1 7 seeded).2).2.


(** ** What the patterns match *)

Definition within (hi : option nat) (n : nat) : Prop :=
  match hi with Some h => (n ≤ h)%nat | None => True end.

(* [matches r pos s pos' s']: from position [pos], with [s] left to read,
   the expression [r] can match up to position [pos'], with [s'] left. *)
Fixpoint matches (r : regex) (pos : nat) (s : list ascii) (pos' : nat) (s' : list ascii)
    : Prop :=
  match r with
  | Bol => pos = 0%nat ∧ pos' = pos ∧ s' = s
  | Eol => (s = [] ∨ s = [newline]) ∧ pos' = pos ∧ s' = s
  | Cls p => ∃ c, s = c :: s' ∧ p c = true ∧ pos' = S pos
  | Rep p lo hi =>
      ∃ pre, s = pre ++ s' ∧ forallb p pre = true ∧ (lo ≤ length pre)%nat
             ∧ within hi (length pre) ∧ pos' = (pos + length pre)%nat
  | Seq r1 r2 => ∃ p1 s1, matches r1 pos s p1 s1 ∧ matches r2 p1 s1 pos' s'
  | Alt r1 r2 => matches r1 pos s pos' s' ∨ matches r2 pos s pos' s'
  | Opt r1 => matches r1 pos s pos' s' ∨ (pos' = pos ∧ s' = s)
  end.

(* The strings _validate_isbn lets through, up to a final newline: ten
   characters, or thirteen that start with 978 or 979, all digits but for a
   last character that may be X; or three groups of digits and a last digit or
   X, separated by hyphens. *)
Definition plain_isbn (l : list ascii) : Prop :=
  ∃ pre ds c,
    (pre = [] ∨ pre = list_ascii_of_string "978" ∨ pre = list_ascii_of_string "979")
    ∧ length ds = 9%nat ∧ forallb digit ds = true ∧ digit_X c = true
    ∧ l = pre ++ ds ++ [c].

Definition hyphenated_isbn (l : list ascii) : Prop :=
  ∃ g1 g2 g3 c,
    forallb digit g1 = true ∧ (1 ≤ length g1 ≤ 5)%nat
    ∧ forallb digit g2 = true ∧ (1 ≤ length g2 ≤ 7)%nat
    ∧ forallb digit g3 = true ∧ (1 ≤ length g3 ≤ 7)%nat
    ∧ digit_X c = true
    ∧ l = g1 ++ "-"%char :: g2 ++ "-"%char :: g3 ++ "-"%char :: [c].

(* The strings _validate_email lets through, up to a final newline. *)
Definition email_shape (l : list ascii) : Prop :=
  ∃ local domain tld,
    local ≠ [] ∧ forallb word_dot_dash local = true
    ∧ domain ≠ [] ∧ forallb word_dot_dash domain = true
    ∧ tld ≠ [] ∧ forallb word tld = true
    ∧ l = local ++ "@"%char :: domain ++ "."%char :: tld.


(** ** Login *)

(* The ASCII characters str.strip() removes: those for which isspace() holds.
   Outside ASCII it removes the white space of Unicode as well. *)
Definition is_space (c : ascii) : bool :=
  in_range (ascii_of_nat 9) (ascii_of_nat 13) c || in_range (ascii_of_nat 28) " " c.

Fixpoint lstrip (l : list ascii) : list ascii :=
  match l with
  | c :: l' => if is_space c then lstrip l' else l
  | [] => []
  end.

(* s.strip() *)
Definition strip (s : string) : string :=
  string_of_list_ascii (rev (lstrip (rev (lstrip (list_ascii_of_string s))))).

Record credentials : Type := { password : string; role : string }.

(* USERS = {"admin": {...}, "librarian": {...}} *)
Definition USERS : gmap string credentials :=
  <["admin" := {| password := "admin123"; role := "admin" |}]>
    (<["librarian" := {| password := "lib123"; role := "librarian" |}]> ∅).

(* The value of self.user: {"username": u, "role": role}. *)
Record session : Type := { username : string; user_role : string }.

(* _do_login, from the two entry fields and the current self.user to the new
   self.user; on failure an error box is shown and self.user stays. *)
Definition _do_login (u_var p_var : string) (user : option session) : option session :=
  let u := strip u_var in
  let p := strip p_var in
  match USERS !! u with
  | Some record =>
      if String.eqb (password record) p
      then Some {| username := u; user_role := role record |}
      else user
  | None => user
  end.


(** ** Listings and the seed data *)

(* SELECT * FROM t; fetchall(): the rows in rowid order. *)
Definition rowid_asc {A} (r1 r2 : Z * A) : Prop := r1.1 ≤ r2.1.

#[export] Instance rowid_asc_dec {A} (r1 r2 : Z * A) : Decision (rowid_asc r1 r2) :=
  Z_le_dec r1.1 r2.1.

Definition select_all {A} (t : gmap Z A) : list (Z * A) :=
  merge_sort rowid_asc (map_to_list t).

Section Search.

(* re.compile(pattern, re.IGNORECASE): the message of re.error for a pattern
   that does not compile, otherwise the test rgx.search(text) is not None. *)
Variable compile : string → string + (string → bool).

(* list_members(pattern) when the SELECT succeeds ([Py.list_members] has the
   SELECT that fails); inl is re.error *)
Definition list_members (pattern : string) (s : db) : string + list (Z * members_row) :=
  let rows := select_all (members s) in
  if String.eqb pattern "" then inr rows
  else
    match compile pattern with
    | inl msg => inl msg
    | inr search => inr (List.filter (λ r, search (name r.2) || search (email r.2)) rows)
    end.

(* list_books(pattern) when the SELECT succeeds; inl is re.error *)
Definition list_books (pattern : string) (s : db) : string + list (Z * books_row) :=
  let rows := select_all (books s) in
  if String.eqb pattern "" then inr rows
  else
    match compile pattern with
    | inl msg => inl msg
    | inr search =>
        inr (List.filter
               (λ r, existsb search [title r.2; author r.2; genre r.2; isbn r.2]) rows)
    end.

(* if not db.list_members(): ... ; the listing is asked for with the default
   pattern, which is never compiled. [es k] is the environment of the k-th
   call seed_if_empty makes to the database. *)
Definition seed_members (es : nat → env) : txn unit :=
  λ w,
    match list_members "" w with
    | inr [] =>
        (_ <- add_member (es 0%nat) (Member.mk "Alice Sharma" "alice@example.com" None) ;;
         _ <- add_member (es 1%nat) (Member.mk "Bob Khan" "bob@example.com" None) ;;
         ret tt)%txn w
    | _ => ret tt w
    end.

(* if not db.list_books(): ... *)
Definition seed_books (es : nat → env) : txn unit :=
  λ w,
    match list_books "" w with
    | inr [] =>
        (_ <- add_book (es 2%nat)
                (Book.mk "Python Crash Course" "Eric Matthes" "Programming"
                   "9781593276034" 3 None) ;;
         _ <- add_book (es 3%nat)
                (Book.mk "Clean Code" "Robert C. Martin" "Software" "9780132350884" 2 None) ;;
         _ <- add_book (es 4%nat)
                (Book.mk "Atomic Habits" "James Clear" "Self-help" "9780735211292" 5 None) ;;
         ret tt)%txn w
    | _ => ret tt w
    end.

(* seed_if_empty(db) *)
Definition seed_if_empty (es : nat → env) : txn unit :=
  (_ <- seed_members es ;; seed_books es)%txn.

End Search.


(* The rows seed_if_empty inserts. *)
Definition alice_row : members_row :=
  {| name := "Alice Sharma"; email := "alice@example.com" |}.

Definition bob_row : members_row := {| name := "Bob Khan"; email := "bob@example.com" |}.

Definition crash_course_row : books_row :=
  {| title := "Python Crash Course"; author := "Eric Matthes"; genre := "Programming";
     isbn := "9781593276034"; available := 3 |}.

Definition clean_code_row : books_row :=
  {| title := "Clean Code"; author := "Robert C. Martin"; genre := "Software";
     isbn := "9780132350884"; available := 2 |}.

Definition atomic_habits_row : books_row :=
  {| title := "Atomic Habits"; author := "James Clear"; genre := "Self-help";
     isbn := "9780735211292"; available := 5 |}.

(** ** The calls as the interpreter runs them

    [LibraryDB] above is the database layer over mathematical integers.
    The interpreter adds two limits, both signalled by OverflowError, which
    no handler of the file catches: an [int] parameter of a statement must
    fit the signed 64-bit INTEGER of SQLite, and a [timedelta] and the
    [datetime] it is added to must stay in their ranges. [Py] has the calls
    with these conversions; dates are counted from 0001-01-01 as day 1, as
    [date.toordinal] does. Where a call of [Py] raises no OverflowError it
    does what the call above does. *)

Module Py.

Definition int64 (z : Z) : bool :=
  (-9223372036854775808 <=? z) && (z <=? 9223372036854775807).

(* self.conn.execute(sql, args): the int arguments are converted when they
   are bound, before the engine runs the statement. *)
Definition execute {A} (e : env) (i : nat) (args : list Z) (sql : txn A) : txn A :=
  λ w, if forallb int64 args then execute e i sql w
       else (Raise (OverflowError "Python int too large to convert to SQLite INTEGER"), w).

Definition lift {A} (r : result A) : txn A := λ w, (r, w).

(* timedelta(days=n); the text of the message is that of small numbers *)
Definition timedelta (n : Z) : result Z :=
  if Z.abs n <=? 999999999 then Ok (timedelta n)
  else Raise (OverflowError ("days=" +:+ str n +:+ "; must have magnitude <= 999999999")).

(* date.min and date.max, as ordinals *)
Definition min_ordinal : Z := 1.
Definition max_ordinal : Z := 3652059.

(* dt + delta *)
Definition plus (dt : datetime) (delta : Z) : result datetime :=
  let sum := dt + delta in
  if (min_ordinal <=? date_of sum) && (date_of sum <=? max_ordinal) then Ok sum
  else Raise (OverflowError "date value out of range").

Definition update_member (e : env) (id : Z) (n em : string) (s : db) : result unit * db :=
  match _validate_email em with
  | Raise x => (Raise x, s)
  | Ok _ => with_conn e 1 (execute e 0 [id] (update_member_row id n em)) s
  end.

Definition add_book (e : env) (b : Book.t) (s : db) : result Z * db :=
  match _validate_isbn (Book.isbn b) with
  | Raise x => (Raise x, s)
  | Ok _ =>
      with_conn e 1
        (execute e 0 [Book.available b]
           (insert_book {| title := Book.title b; author := Book.author b;
                           genre := Book.genre b; isbn := Book.isbn b;
                           available := Book.available b |})) s
  end.

Definition update_book (e : env) (id : Z) (t a g i : string) (av : Z) (s : db)
    : result unit * db :=
  match _validate_isbn i with
  | Raise x => (Raise x, s)
  | Ok _ =>
      with_conn e 1
        (execute e 0 [av; id]
           (update_book_row id {| title := t; author := a; genre := g; isbn := i;
                                  available := av |})) s
  end.

Definition borrow_book (e : env) (m b : Z) (loan_days : Z) (s : db) : result unit * db :=
  except_sqlite3_Error
    (with_conn e 3
       (book <- execute e 0 [b] (select_available b) ;;
        if match book with None => true | Some av => av <=? 0 end
        then raise (ValidationError "Book not available")
        else
          _ <- execute e 1 [b] (update_available b (-1)) ;;
          let now_ := now e in
          delta <- lift (timedelta loan_days) ;;
          due <- lift (plus now_ delta) ;;
          _ <- execute e 2 [m; b] (insert_transaction m b now_ (date_of due)) ;;
          ret tt) s).

Definition return_book (e : env) (tx_id : Z) (fine_per_day : Z) (s : db) : result Z * db :=
  except_sqlite3_Error
    (with_conn e 3
       (tx <- execute e 0 [tx_id] (select_transaction tx_id) ;;
        match tx with
        | None => raise (ValidationError "Invalid transaction or already returned")
        | Some row =>
            match return_date row with
            | Some _ => raise (ValidationError "Invalid transaction or already returned")
            | None =>
                let due := midnight (due_date row) in
                let today := now e in
                let overdue_days := Z.max (days (today - due)) 0 in
                let fine_ := overdue_days * fine_per_day in
                _ <- execute e 1 [fine_; tx_id]
                       (update_returned tx_id (date_of today) fine_) ;;
                _ <- execute e 2 [book_id row] (update_available (book_id row) 1) ;;
                ret fine_
            end
        end) s).

Section Search.

Variable compile : string → string + (string → bool).

(* list_members(pattern) and list_books(pattern). The SELECT runs outside
   any handler; [sel] is what the engine answers to it, and its error reaches
   the caller as it is. *)
Definition list_members (sel : option sqlite3_Error) (pattern : string) (s : db)
    : result (string + list (Z * members_row)) :=
  match sel with
  | Some err => Raise (Sqlite3 err)
  | None => Ok (list_members compile pattern s)
  end.

Definition list_books (sel : option sqlite3_Error) (pattern : string) (s : db)
    : result (string + list (Z * books_row)) :=
  match sel with
  | Some err => Raise (Sqlite3 err)
  | None => Ok (list_books compile pattern s)
  end.

(* seed_if_empty(db); [sel 0] and [sel 1] are the answers of the engine to
   its two SELECTs, [es k] the environment of its k-th insertion. *)
Definition seed_members (sel : nat → option sqlite3_Error) (es : nat → env) : txn unit :=
  λ w,
    match list_members (sel 0%nat) "" w with
    | Raise x => (Raise x, w)
    | Ok (inr []) =>
        (_ <- add_member (es 0%nat) (Member.mk "Alice Sharma" "alice@example.com" None) ;;
         _ <- add_member (es 1%nat) (Member.mk "Bob Khan" "bob@example.com" None) ;;
         ret tt) w
    | Ok _ => ret tt w
    end.

Definition seed_books (sel : nat → option sqlite3_Error) (es : nat → env) : txn unit :=
  λ w,
    match list_books (sel 1%nat) "" w with
    | Raise x => (Raise x, w)
    | Ok (inr []) =>
        (_ <- add_book (es 2%nat)
                (Book.mk "Python Crash Course" "Eric Matthes" "Programming"
                   "9781593276034" 3 None) ;;
         _ <- add_book (es 3%nat)
                (Book.mk "Clean Code" "Robert C. Martin" "Software" "9780132350884" 2 None) ;;
         _ <- add_book (es 4%nat)
                (Book.mk "Atomic Habits" "James Clear" "Self-help" "9780735211292" 5 None) ;;
         ret tt) w
    | Ok _ => ret tt w
    end.

Definition seed_if_empty (sel : nat → option sqlite3_Error) (es : nat → env) : txn unit :=
  _ <- seed_members sel es ;; seed_books sel es.

End Search.

End Py.

(* The outcome of a call that could not bind an int: OverflowError, the
   database as it was. *)
Definition unbindable {A} (s : db) : result A * db :=
  (Raise (OverflowError "Python int too large to convert to SQLite INTEGER"), s).

(* The strings on which the ASCII classes above are those of Python. *)
Definition is_ascii (c : ascii) : bool := (nat_of_ascii c <? 128)%nat.

Definition ascii_only (s : string) : Prop :=
  forallb is_ascii (list_ascii_of_string s) = true.

(* 2 ** 63, the first int SQLite cannot store *)
Definition two_63 : Z := 9223372036854775808.


(** * Properties *)

(** ** The validators on sample input *)

Example isbn_13 : _validate_isbn "9781593276034" = Ok tt.
Proof. reflexivity. Qed.
Example isbn_10X : _validate_isbn "080442957X" = Ok tt.
Proof. reflexivity. Qed.
Example isbn_hyphens : _validate_isbn "0-306-40615-2" = Ok tt.
Proof. reflexivity. Qed.
Example isbn_short : _validate_isbn "123" = Raise (ValidationError "Invalid ISBN").
Proof. reflexivity. Qed.
Example isbn_12 : _validate_isbn "978159327603" = Raise (ValidationError "Invalid ISBN").
Proof. reflexivity. Qed.
(* $ also matches just before a newline that ends the string. *)
Example isbn_trailing_newline :
  _validate_isbn ("9781593276034" +:+ String newline EmptyString) = Ok tt.
Proof. reflexivity. Qed.
Example email_ok : _validate_email "alice@example.com" = Ok tt.
Proof. reflexivity. Qed.
Example email_no_tld : _validate_email "alice@example" = Raise (ValidationError "Invalid email format").
Proof. reflexivity. Qed.


(** ** Time arithmetic *)

Section Time.

Lemma date_of_plus_days (t : datetime) (n : Z) :
  date_of (t + timedelta n) = date_of t + n.
Proof. unfold date_of, timedelta, us_per_day. now rewrite Z.div_add. Qed.

Lemma date_of_midnight (d : date) : date_of (midnight d) = d.
Proof. unfold date_of, midnight, us_per_day. now rewrite Z.div_mul. Qed.

Lemma days_timedelta (n : Z) : days (timedelta n) = n.
Proof. unfold days, timedelta, us_per_day. now rewrite Z.div_mul. Qed.

(* (today - due).days, for a datetime [today] and [due] at midnight *)
Lemma days_since_midnight (today : datetime) (d : date) :
  days (today - midnight d) = date_of today - d.
Proof.
  unfold days, date_of, midnight, us_per_day.
  replace (today - d * 86400000000) with (today + (- d) * 86400000000) by lia.
  rewrite Z.div_add by lia. lia.
Qed.

Lemma overdue_days_late (today : datetime) (d : date) :
  d < date_of today → Z.max (days (today - midnight d)) 0 = date_of today - d.
Proof. rewrite days_since_midnight. lia. Qed.

Lemma overdue_days_in_time (today : datetime) (d : date) :
  date_of today ≤ d → Z.max (days (today - midnight d)) 0 = 0.
Proof. rewrite days_since_midnight. lia. Qed.

End Time.

(** ** Row identifiers *)

Section Rowid.
Context {A : Type}.

Lemma max_rowid_bound (t : gmap Z A) :
  0 ≤ max_rowid t ∧ ∀ k, is_Some (t !! k) → k ≤ max_rowid t.
Proof.
  unfold max_rowid.
  apply (map_fold_weak_ind (λ r (m : gmap Z A), 0 ≤ r ∧ ∀ k, is_Some (m !! k) → k ≤ r)).
  - split; [lia |]. intros k [x Hx]. now rewrite lookup_empty in Hx.
  - intros i x m r _ [Hr IH]. split; [lia |].
    intros k Hk. destruct (decide (i = k)) as [-> | Hne]; [lia |].
    rewrite lookup_insert_ne in Hk by done. specialize (IH k Hk). lia.
Qed.

Lemma next_rowid_fresh (seq : Z) (t : gmap Z A) : t !! next_rowid seq t = None.
Proof.
  destruct (t !! next_rowid seq t) eqn:E; [| done].
  pose proof (proj2 (max_rowid_bound t) (next_rowid seq t) (mk_is_Some _ _ E)).
  unfold next_rowid in *. lia.
Qed.

Lemma next_rowid_positive (seq : Z) (t : gmap Z A) : 0 < next_rowid seq t.
Proof. pose proof (proj1 (max_rowid_bound t)). unfold next_rowid. lia. Qed.

End Rowid.

(** ** The uniqueness check on isbn *)

Lemma isbn_in_use_true (t : gmap Z books_row) (i : string) :
  isbn_in_use t i = true ↔ ∃ k r, t !! k = Some r ∧ isbn r = i.
Proof.
  unfold isbn_in_use. rewrite existsb_exists. split.
  - intros [[k r] [Hin Heq]]. exists k, r. split.
    + apply elem_of_map_to_list. now apply list_elem_of_In.
    + now apply String.eqb_eq.
  - intros (k & r & Hk & Hr). exists (k, r). split.
    + apply list_elem_of_In. now apply elem_of_map_to_list.
    + now apply String.eqb_eq.
Qed.

(** ** A [with self.conn] block never leaves a partial write behind *)



(** ** The course of a borrow and of a return, statement by statement *)

Lemma borrow_book_course (e : env) (m b d : Z) (s : db) :
  borrow_book e m b d s =
  match fault e 0%nat with
  | Some err => db_error err s
  | None =>
      match books s !! b with
      | None => (Raise (ValidationError "Book not available"), s)
      | Some r =>
          if available r <=? 0 then (Raise (ValidationError "Book not available"), s)
          else
            match fault e 1%nat with
            | Some err => db_error err s
            | None =>
                match fault e 2%nat with
                | Some err => db_error err s
                | None =>
                    match fault e 3%nat with
                    | Some err => db_error err s
                    | None =>
                        let id := next_rowid (seq_transactions s) (transactions s) in
                        (Ok tt,
                         {| members := members s;
                            books := alter (add_available (-1)) b (books s);
                            transactions := <[id := new_loan e m b d]> (transactions s);
                            seq_members := seq_members s; seq_books := seq_books s;
                            seq_transactions := id |})
                    end
                end
            end
      end
  end.
Proof.
  unfold borrow_book, with_conn, bind, execute, select_available, db_error.
  destruct (fault e 0%nat) as [err |]; [reflexivity |].
  destruct (books s !! b) as [r |]; simpl; [| reflexivity].
  destruct (available r <=? 0); [reflexivity |].
  unfold update_available, insert_transaction, ret. simpl.
  destruct (fault e 1%nat); [reflexivity |].
  destruct (fault e 2%nat); [reflexivity |].
  destruct (fault e 3%nat); reflexivity.
Qed.

Lemma return_book_course (e : env) (tx f : Z) (s : db) :
  return_book e tx f s =
  match fault e 0%nat with
  | Some err => db_error err s
  | None =>
      match transactions s !! tx with
      | None => (Raise (ValidationError "Invalid transaction or already returned"), s)
      | Some row =>
          match return_date row with
          | Some _ => (Raise (ValidationError "Invalid transaction or already returned"), s)
          | None =>
              match fault e 1%nat with
              | Some err => db_error err s
              | None =>
                  match fault e 2%nat with
                  | Some err => db_error err s
                  | None =>
                      match fault e 3%nat with
                      | Some err => db_error err s
                      | None =>
                          let fine_ :=
                            Z.max (days (now e - midnight (due_date row))) 0 * f in
                          (Ok fine_,
                           {| members := members s;
                              books := alter (add_available 1) (book_id row) (books s);
                              transactions :=
                                alter (close_row (date_of (now e)) fine_) tx (transactions s);
                              seq_members := seq_members s; seq_books := seq_books s;
                              seq_transactions := seq_transactions s |})
                      end
                  end
              end
          end
      end
  end.
Proof.
  unfold return_book, with_conn, bind, execute, select_transaction, db_error.
  destruct (fault e 0%nat) as [err |]; [reflexivity |].
  destruct (transactions s !! tx) as [row |]; simpl; [| reflexivity].
  destruct (return_date row); [reflexivity |].
  unfold update_returned, update_available, ret. simpl.
  destruct (fault e 1%nat); [reflexivity |].
  destruct (fault e 2%nat); [reflexivity |].
  destruct (fault e 3%nat); reflexivity.
Qed.

(** ** Borrowing *)



(** ** Returning *)

Example return_three_days_late :
  (return_book (healthy (noon 111)) 1 5 lent_twice).1 = Ok 15.
Proof. vm_compute; reflexivity. Qed.

Example return_in_time :
  (return_book (healthy (noon 108)) 1 5 lent_twice).1 = Ok 0.
Proof. vm_compute; reflexivity. Qed.

Lemma return_book_rejects (e : env) (tx f : Z) (s : db) :
  transactions s !! tx = None
  ∨ (∃ t d, transactions s !! tx = Some t ∧ return_date t = Some d) →
  ∃ x, return_book e tx f s = (Raise x, s)
       ∧ (fault e 0%nat = None
          → x = ValidationError "Invalid transaction or already returned").
Proof.
  intros H. rewrite return_book_course. unfold db_error.
  destruct (fault e 0%nat) as [err |]; [eexists; split; [reflexivity | discriminate] |].
  destruct H as [-> | (t & d & -> & ->)]; eexists; split; reflexivity || done.
Qed.

Lemma return_book_closes (e : env) (tx f fine_ : Z) (s s' : db) :
  return_book e tx f s = (Ok fine_, s') →
  ∃ t, transactions s' !! tx = Some t
       ∧ return_date t = Some (date_of (now e)) ∧ fine t = fine_.
Proof.
  rewrite return_book_course. unfold db_error.
  destruct (fault e 0%nat); [discriminate |].
  destruct (transactions s !! tx) as [row |] eqn:Ht; [| discriminate].
  destruct (return_date row); [discriminate |].
  destruct (fault e 1%nat); [discriminate |].
  destruct (fault e 2%nat); [discriminate |].
  destruct (fault e 3%nat); [discriminate |].
  intros [= <- <-]. simpl. rewrite lookup_alter_eq, Ht. simpl.
  eexists. split; [reflexivity |]. split; reflexivity.
Qed.

(* In particular a second return of a transaction fails, whatever the clock
   and the fine rate of the second call: the stored fine and the available
   count stay as the first return left them. *)
Corollary return_twice (e1 e2 : env) (tx f1 f2 fine_ : Z) (s s1 : db) :
  return_book e1 tx f1 s = (Ok fine_, s1) →
  ∃ x, return_book e2 tx f2 s1 = (Raise x, s1)
       ∧ (fault e2 0%nat = None
          → x = ValidationError "Invalid transaction or already returned").
Proof.
  intros H. apply return_book_closes in H as (t & Ht & Hd & _).
  apply return_book_rejects. right. eauto.
Qed.

Example return_twice_example :
  return_book (healthy (noon 120)) 1 5 (return_book (healthy (noon 111)) 1 5 lent_twice).2
  = (Raise (ValidationError "Invalid transaction or already returned"),
     (return_book (healthy (noon 111)) 1 5 lent_twice).2).
Proof. vm_compute; reflexivity. Qed.

(** ** Storage failures *)

(** C6. When the storage engine fails a statement that a borrow or a return
    executes, the caller gets ValidationError("DB error: " + str(cause)), the
    exception in which the code wraps a storage failure, and the database is
    as it was before the call. Statement 0 is the SELECT, which every call
    executes; statements 1 and 2 (the UPDATE, and the INSERT or second
    UPDATE) and 3 (the commit) are executed when the check after the SELECT
    passes. *)
Theorem storage_failure_rolls_back :
  (∀ (e : env) (m b d : Z) (s : db) (i : nat) (err : sqlite3_Error),
     fault e i = Some err → (∀ j, (j < i)%nat → fault e j = None) →
     (i = 0%nat ∨ ((i ≤ 3)%nat ∧ ∃ r, books s !! b = Some r ∧ 0 < available r)) →
     borrow_book e m b d s
     = (Raise (ValidationError ("DB error: " +:+ str err)), s))
  ∧ (∀ (e : env) (tx f : Z) (s : db) (i : nat) (err : sqlite3_Error),
       fault e i = Some err → (∀ j, (j < i)%nat → fault e j = None) →
       (i = 0%nat
        ∨ ((i ≤ 3)%nat ∧ ∃ t, transactions s !! tx = Some t ∧ return_date t = None)) →
       return_book e tx f s
       = (Raise (ValidationError ("DB error: " +:+ str err)), s)).
Proof.
  split.
  - intros e m b d s i err Hi Hlt Hex. rewrite borrow_book_course. unfold db_error.
    destruct Hex as [-> | [Hle (r & Hb & Hav)]]; [now rewrite Hi |].
    apply Z.leb_gt in Hav. rewrite Hb, Hav.
    destruct i as [| [| [| [| i]]]]; [| | | | lia].
    + now rewrite Hi.
    + rewrite (Hlt 0%nat) by lia. now rewrite Hi.
    + rewrite (Hlt 0%nat), (Hlt 1%nat) by lia. now rewrite Hi.
    + rewrite (Hlt 0%nat), (Hlt 1%nat), (Hlt 2%nat) by lia. now rewrite Hi.
  - intros e tx f s i err Hi Hlt Hex. rewrite return_book_course. unfold db_error.
    destruct Hex as [-> | [Hle (t & Ht & Hopen)]]; [now rewrite Hi |].
    rewrite Ht, Hopen.
    destruct i as [| [| [| [| i]]]]; [| | | | lia].
    + now rewrite Hi.
    + rewrite (Hlt 0%nat) by lia. now rewrite Hi.
    + rewrite (Hlt 0%nat), (Hlt 1%nat) by lia. now rewrite Hi.
    + rewrite (Hlt 0%nat), (Hlt 1%nat), (Hlt 2%nat) by lia. now rewrite Hi.
Qed.

Lemma storage_failure_rolls_back_witness :
  borrow_book (failing (noon 101) 2 (OperationalError "disk I/O error")) 1 1 7 seeded
  = (Raise (ValidationError "DB error: disk I/O error"), seeded)
  ∧ return_book (failing (noon 111) 3 (OperationalError "database is locked")) 1 5 lent_twice
    = (Raise (ValidationError "DB error: database is locked"), lent_twice).
Proof.
  split.
  - apply (proj1 storage_failure_rolls_back
             (failing (noon 101) 2 (OperationalError "disk I/O error")) 1 1 7 seeded
             2%nat (OperationalError "disk I/O error")).
    + reflexivity.
    + intros [| [| j]] Hj; [reflexivity | reflexivity | lia].
    + right. split; [lia |]. eexists. split; [vm_compute; reflexivity | simpl; lia].
  - apply (proj2 storage_failure_rolls_back
             (failing (noon 111) 3 (OperationalError "database is locked")) 1 5 lent_twice
             3%nat (OperationalError "database is locked")).
    + reflexivity.
    + intros [| [| [| j]]] Hj; [reflexivity | reflexivity | reflexivity | lia].
    + right. split; [lia |]. eexists. split; [vm_compute; reflexivity | reflexivity].
Defined.

(** ** The catalogue *)

Lemma add_book_course (e : env) (b : Book.t) (s : db) :
  add_book e b s =
  match _validate_isbn (Book.isbn b) with
  | Raise x => (Raise x, s)
  | Ok _ =>
      match fault e 0%nat with
      | Some err => (Raise (Sqlite3 err), s)
      | None =>
          if isbn_in_use (books s) (Book.isbn b)
          then (Raise (Sqlite3 (IntegrityError "UNIQUE constraint failed: books.isbn")), s)
          else
            match fault e 1%nat with
            | Some err => (Raise (Sqlite3 err), s)
            | None =>
                let id := next_rowid (seq_books s) (books s) in
                (Ok id,
                 {| members := members s; books := <[id := as_row b]> (books s);
                    transactions := transactions s;
                    seq_members := seq_members s; seq_books := id;
                    seq_transactions := seq_transactions s |})
            end
      end
  end.
Proof.
  unfold add_book, with_conn, execute, insert_book.
  destruct (_validate_isbn (Book.isbn b)); [| reflexivity].
  destruct (fault e 0%nat); [reflexivity |]. simpl.
  destruct (isbn_in_use (books s) (Book.isbn b)); [reflexivity |].
  destruct (fault e 1%nat); reflexivity.
Qed.



(** ** What every reachable database satisfies *)

Lemma add_member_tables (e : env) (m : Member.t) (s : db) :
  books (add_member e m s).2 = books s
  ∧ transactions (add_member e m s).2 = transactions s.
Proof.
  unfold add_member, with_conn, execute, insert_member.
  destruct (_validate_email (Member.email m)); [| done].
  destruct (fault e 0%nat); [done |]. simpl.
  destruct (fault e 1%nat); done.
Qed.

Lemma update_member_tables (e : env) (id : Z) (n em : string) (s : db) :
  books (update_member e id n em s).2 = books s
  ∧ transactions (update_member e id n em s).2 = transactions s.
Proof.
  unfold update_member, with_conn, execute, update_member_row.
  destruct (_validate_email em); [| done].
  destruct (fault e 0%nat); [done |]. simpl.
  destruct (fault e 1%nat); done.
Qed.

Lemma add_book_tables (e : env) (b : Book.t) (s : db) :
  (add_book e b s).2 = s
  ∨ (_validate_isbn (Book.isbn b) = Ok tt
     ∧ books (add_book e b s).2
       = <[next_rowid (seq_books s) (books s) := as_row b]> (books s)
     ∧ transactions (add_book e b s).2 = transactions s).
Proof.
  rewrite add_book_course.
  destruct (_validate_isbn (Book.isbn b)) as [[] |]; [| now left].
  destruct (fault e 0%nat); [now left |].
  destruct (isbn_in_use (books s) (Book.isbn b)); [now left |].
  destruct (fault e 1%nat); [now left |]. right. done.
Qed.

Lemma update_book_tables (e : env) (id : Z) (t a g i : string) (av : Z) (s : db) :
  (update_book e id t a g i av s).2 = s
  ∨ (_validate_isbn i = Ok tt
     ∧ is_Some (books s !! id)
     ∧ books (update_book e id t a g i av s).2
       = <[id := {| title := t; author := a; genre := g; isbn := i; available := av |}]>
           (books s)
     ∧ transactions (update_book e id t a g i av s).2 = transactions s).
Proof.
  unfold update_book, with_conn, execute, update_book_row.
  destruct (_validate_isbn i) as [[] |]; [| now left].
  destruct (fault e 0%nat); [now left |].
  destruct (books s !! id) eqn:Hid; simpl.
  - destruct (isbn_in_use (delete id (books s)) i); [now left |]. simpl.
    destruct (fault e 1%nat); [now left |]. right. simpl. eauto.
  - destruct (fault e 1%nat); now left.
Qed.

Lemma borrow_book_tables (e : env) (m b d : Z) (s : db) :
  (borrow_book e m b d s).2 = s
  ∨ (∃ r, books s !! b = Some r ∧ 0 < available r)
    ∧ books (borrow_book e m b d s).2 = alter (add_available (-1)) b (books s)
    ∧ transactions (borrow_book e m b d s).2
      = <[next_rowid (seq_transactions s) (transactions s) := new_loan e m b d]>
          (transactions s).
Proof.
  rewrite borrow_book_course. unfold db_error.
  destruct (fault e 0%nat); [now left |].
  destruct (books s !! b) as [r |]; [| now left].
  destruct (available r <=? 0) eqn:Hav; [now left |]. apply Z.leb_gt in Hav.
  destruct (fault e 1%nat); [now left |].
  destruct (fault e 2%nat); [now left |].
  destruct (fault e 3%nat); [now left |]. right. simpl. eauto.
Qed.

Lemma return_book_tables (e : env) (tx f : Z) (s : db) :
  (return_book e tx f s).2 = s
  ∨ ∃ t fine_,
      transactions s !! tx = Some t ∧ return_date t = None
      ∧ books (return_book e tx f s).2 = alter (add_available 1) (book_id t) (books s)
      ∧ transactions (return_book e tx f s).2
        = <[tx := close_row (date_of (now e)) fine_ t]> (transactions s).
Proof.
  rewrite return_book_course. unfold db_error.
  destruct (fault e 0%nat); [now left |].
  destruct (transactions s !! tx) as [t |] eqn:Ht; [| now left].
  destruct (return_date t) eqn:Hopen; [now left |].
  destruct (fault e 1%nat); [now left |].
  destruct (fault e 2%nat); [now left |].
  destruct (fault e 3%nat); [now left |]. right. simpl.
  eexists _, _. split; [reflexivity |]. split; [done |]. split; [done |].
  now rewrite (alter_alt_Some _ _ _ _ Ht).
Qed.

Lemma consistent_empty : consistent empty_db.
Proof. split; intros k x Hx; simpl in Hx; now rewrite lookup_empty in Hx. Qed.

Lemma consistent_same_tables (s s' : db) :
  books s' = books s ∧ transactions s' = transactions s → consistent s → consistent s'.
Proof. intros [Hb Ht] [H1 H2]. split; rewrite ?Hb, ?Ht; eauto. Qed.

Lemma consistent_insert_book (s s' : db) (id : Z) (r : books_row) :
  _validate_isbn (isbn r) = Ok tt →
  books s' = <[id := r]> (books s) → transactions s' = transactions s →
  consistent s → consistent s'.
Proof.
  intros Hv Hb Ht [H1 H2]. split; rewrite ?Hb, ?Ht.
  - intros k x. rewrite lookup_insert. case_decide; [intros [= <-]; done | eauto].
  - intros k t Hk. rewrite lookup_insert. case_decide; [eauto | eauto].
Qed.

Lemma consistent_perform (e : env) (c : call) (s : db) :
  consistent s → consistent (perform e c s).
Proof.
  intros Hs. destruct c as [m | id n em | b | id t a g i av | m b d | tx f]; simpl.
  - eapply consistent_same_tables; [apply add_member_tables | done].
  - eapply consistent_same_tables; [apply update_member_tables | done].
  - destruct (add_book_tables e b s) as [-> | (Hv & Hb & Ht)]; [done |].
    eapply consistent_insert_book; [| exact Hb | exact Ht | done]. exact Hv.
  - destruct (update_book_tables e id t a g i av s) as [-> | (Hv & _ & Hb & Ht)]; [done |].
    eapply consistent_insert_book; [| exact Hb | exact Ht | done]. exact Hv.
  - destruct (borrow_book_tables e m b d s) as [-> | ((r & Hr & _) & Hb & Ht)]; [done |].
    destruct Hs as [H1 H2]. split; rewrite ?Hb, ?Ht.
    + intros k x. rewrite lookup_alter. case_decide; [subst k | eauto].
      rewrite Hr. intros [= <-]. simpl. eauto.
    + intros k t. rewrite lookup_alter_is_Some, lookup_insert.
      case_decide; [intros [= <-]; simpl; eauto | eauto].
  - destruct (return_book_tables e tx f s) as [-> | (t & fi & Htx & _ & Hb & Ht)]; [done |].
    destruct Hs as [H1 H2]. split; rewrite ?Hb, ?Ht.
    + intros k x. rewrite lookup_alter. case_decide; [subst k | eauto].
      destruct (books s !! book_id t) as [r |] eqn:Hr; [| done].
      intros [= <-]. simpl. eauto.
    + intros k t'. rewrite lookup_alter_is_Some, lookup_insert.
      case_decide; [intros [= <-]; simpl; eauto | eauto].
Qed.

Lemma reachable_consistent (s : db) : reachable s → consistent s.
Proof.
  induction 1 as [| e c s _ IH]; [apply consistent_empty | now apply consistent_perform].
Qed.


Lemma seeded_reachable : reachable seeded.
Proof.
  exact (reach_call (healthy (noon 100)) (AddBook clean_code) _
           (reach_call (healthy (noon 100)) (AddMember alice) _ reach_init)).
Qed.


(** ** Copies on loan *)

Lemma on_loan_unfold (s : db) (b : Z) :
  on_loan s b = size (filter (lent b) (transactions s)).
Proof. reflexivity. Qed.

Lemma on_loan_inserted (s s' : db) (b id : Z) (t : transactions_row) :
  transactions s !! id = None →
  transactions s' = <[id := t]> (transactions s) →
  (book_id t = b → return_date t = None → on_loan s' b = S (on_loan s b))
  ∧ (book_id t ≠ b → on_loan s' b = on_loan s b).
Proof.
  intros Hfresh Hins. rewrite !on_loan_unfold, Hins. split.
  - intros Hb Hopen. rewrite map_filter_insert_True by done.
    apply map_size_insert_None. apply map_lookup_filter_None. now left.
  - intros Hb. rewrite map_filter_insert_not'; [done | |].
    + unfold lent. simpl. tauto.
    + intros y Hy. congruence.
Qed.

Lemma on_loan_closed (s s' : db) (b tx : Z) (t : transactions_row) (d f : Z) :
  transactions s !! tx = Some t → return_date t = None →
  transactions s' = <[tx := close_row d f t]> (transactions s) →
  (book_id t = b → S (on_loan s' b) = on_loan s b)
  ∧ (book_id t ≠ b → on_loan s' b = on_loan s b).
Proof.
  intros Ht Hopen Hins. rewrite !on_loan_unfold, Hins.
  rewrite map_filter_insert_False by (unfold lent; simpl; intros [_ ?]; discriminate).
  split.
  - intros Hb. rewrite map_filter_delete.
    assert (filter (lent b) (transactions s) !! tx = Some t) as Hin
      by (apply map_lookup_filter_Some; done).
    rewrite <- (insert_delete_id _ _ _ Hin) at 2.
    symmetry. apply map_size_insert_None, lookup_delete_eq.
  - intros Hb. rewrite map_filter_delete_not; [done |].
    intros y Hy [Hyb _]. simpl in Hyb. congruence.
Qed.

Lemma on_loan_no_transaction (s : db) (b : Z) :
  (∀ k t, transactions s !! k = Some t → book_id t ≠ b) → on_loan s b = 0%nat.
Proof.
  intros H. rewrite on_loan_unfold.
  assert (filter (lent b) (transactions s) = ∅) as ->; [| apply map_size_empty].
  apply map_empty_filter. intros k t Hk [Hb _]. exact (H k t Hk Hb).
Qed.

Lemma reconciled_lending (n b : Z) (e : env) (x : lending) (s : db) :
  reconciled n b s → reconciled n b (perform e (as_call x) s).
Proof.
  intros (r & Hr & Hsum & Hpos). destruct x as [m b' d | tx f]; simpl.
  - destruct (borrow_book_tables e m b' d s) as [-> | ((r' & Hr' & Hav) & Hb & Ht)];
      [exists r; done |].
    destruct (on_loan_inserted s _ b _ _ (next_rowid_fresh _ _) Ht) as [Hsame Hother].
    destruct (decide (b' = b)) as [-> | Hne].
    + assert (r' = r) as -> by congruence.
      exists (add_available (-1) r). rewrite Hb, lookup_alter_eq, Hr.
      split; [done |]. rewrite Hsame by done. simpl. lia.
    + exists r. rewrite Hb, lookup_alter_ne by done.
      split; [done |]. rewrite Hother by done. done.
  - destruct (return_book_tables e tx f s) as [-> | (t & fi & Htx & Hopen & Hb & Ht)];
      [exists r; done |].
    destruct (on_loan_closed s _ b _ _ _ _ Htx Hopen Ht) as [Hsame Hother].
    destruct (decide (book_id t = b)) as [Heq | Hne].
    + exists (add_available 1 r). rewrite Hb, Heq, lookup_alter_eq, Hr.
      split; [done |]. specialize (Hsame Heq). simpl. lia.
    + exists r. rewrite Hb, lookup_alter_ne by done.
      split; [done |]. rewrite Hother by done. done.
Qed.

Lemma reconciled_lend (n b : Z) (l : list (env * lending)) (s : db) :
  reconciled n b s → reconciled n b (lend l s).
Proof.
  revert s. induction l as [| [e x] l IH]; intros s Hs; simpl; [done |].
  apply IH. now apply reconciled_lending.
Qed.

Lemma reconciled_fresh_book (e : env) (b : Book.t) (s s0 : db) (id : Z) :
  consistent s → 0 ≤ Book.available b → add_book e b s = (Ok id, s0) →
  reconciled (Book.available b) id s0.
Proof.
  intros Hs Hpos. rewrite add_book_course.
  destruct (_validate_isbn (Book.isbn b)); [| discriminate].
  destruct (fault e 0%nat); [discriminate |].
  destruct (isbn_in_use (books s) (Book.isbn b)); [discriminate |].
  destruct (fault e 1%nat); [discriminate |].
  intros [= <- <-]. exists (as_row b). simpl. rewrite lookup_insert_eq.
  split; [done |]. split; [| done].
  rewrite on_loan_no_transaction; [simpl; lia |]. simpl.
  intros k t Hk Heq. destruct (loans_have_books s Hs k t Hk) as [r Hr].
  rewrite Heq, next_rowid_fresh in Hr. discriminate.
Qed.

(** C1, amended. A book added with a number of copies that is not negative,
    to a database reached through the interface, keeps after every sequence of
    borrows and returns, whatever their arguments, their clock and the
    failures of the storage engine: available plus the number of its
    transactions with a NULL return_date equals the copies it was added with,
    and available is at least 0 and at most that number of copies. *)
Theorem availability_reconciles (e : env) (b : Book.t) (s s0 : db) (id : Z)
    (l : list (env * lending)) :
  reachable s → 0 ≤ Book.available b → add_book e b s = (Ok id, s0) →
  ∃ r, books (lend l s0) !! id = Some r
       ∧ available r + Z.of_nat (on_loan (lend l s0) id) = Book.available b
       ∧ 0 ≤ available r ≤ Book.available b.
Proof.
  intros Hs Hpos Hadd. apply reachable_consistent in Hs.
  destruct (reconciled_lend (Book.available b) id l s0) as (r & Hr & Hsum & Hlow).
  - exact (reconciled_fresh_book e b s s0 id Hs Hpos Hadd).
  - exists r. split; [exact Hr |]. split; [exact Hsum |]. lia.
Qed.

Lemma availability_reconciles_witness :
  ∃ r, books (lend round_trip seeded) !! 1 = Some r
       ∧ available r + Z.of_nat (on_loan (lend round_trip seeded) 1) = 2
       ∧ 0 ≤ available r ≤ 2.
Proof.
  apply (availability_reconciles (healthy (noon 100)) clean_code
           (add_member (healthy (noon 100)) alice empty_db).2 seeded 1 round_trip).
  - exact (reach_call (healthy (noon 100)) (AddMember alice) _ reach_init).
  - simpl; lia.
  - vm_compute; reflexivity.
Defined.

Example round_trip_state :
  available <$> books (lend round_trip seeded) !! 1 = Some 1
  ∧ on_loan (lend round_trip seeded) 1 = 1%nat.
Proof. vm_compute; done. Qed.

(* The round trip of the specification: two copies, two borrows, a third
   borrow refused, two returns. *)
Example two_copies_round_trip :
  let s2 := lend [(healthy (noon 101), Borrow 1 1 7); (healthy (noon 102), Borrow 1 1 7)]
              seeded in
  available <$> books s2 !! 1 = Some 0
  ∧ borrow_book (healthy (noon 103)) 1 1 7 s2
    = (Raise (ValidationError "Book not available"), s2)
  ∧ available <$> books (lend [(healthy (noon 104), Return 1 5);
                                (healthy (noon 105), Return 2 5)] s2) !! 1 = Some 2.
Proof. vm_compute; done. Qed.

(** C1 as stated fails: add_book stores whatever count it is given, so a book
    added with -1 copies has a negative available before any borrow or
    return. *)
Lemma negative_copies_registered :
  ∃ s0 r,
    add_book (healthy (noon 100)) (Book.mk "T" "A" "G" "9780132350884" (-1) None) empty_db
    = (Ok 1, s0)
    ∧ books (lend [] s0) !! 1 = Some r
    ∧ ¬ (0 ≤ available r).
Proof.
  eexists _, _. split; [vm_compute; reflexivity |].
  split; [vm_compute; reflexivity |]. simpl. lia.
Qed.

(** ** The overdue report *)

Lemma overdue_loop_append (today : date) (rows : list joined_row) (out : list report_row) :
  overdue_loop today rows out = out ++ omap (overdue_entry today) rows.
Proof.
  revert out. induction rows as [| r rows IH]; intros out; simpl.
  - now rewrite app_nil_r.
  - unfold overdue_entry at 1.
    destruct (date_of (midnight (due_date (t_cols r))) <? today).
    + now rewrite IH, <- app_assoc.
    + apply IH.
Qed.

Lemma active_loans_elem (s : db) (r : joined_row) :
  r ∈ active_loans s ↔
  ∃ k t m b,
    transactions s !! k = Some t ∧ return_date t = None
    ∧ members s !! member_id t = Some m ∧ books s !! book_id t = Some b
    ∧ r = {| tx_id := k; t_cols := t; member_name := name m; book_title := title b |}.
Proof.
  unfold active_loans. rewrite merge_sort_Permutation, list_elem_of_filter, list_elem_of_omap.
  split.
  - intros [Hopen [[k t] [Hin Hjoin]]]. apply elem_of_map_to_list in Hin.
    unfold join in Hjoin. simpl in Hjoin.
    destruct (members s !! member_id t) as [m |] eqn:Hm; [| discriminate].
    destruct (books s !! book_id t) as [b |] eqn:Hb; [| discriminate].
    injection Hjoin as <-. exists k, t, m, b. done.
  - intros (k & t & m & b & Hk & Hopen & Hm & Hb & ->). split; [exact Hopen |].
    exists (k, t). split; [now apply elem_of_map_to_list |].
    unfold join. simpl. now rewrite Hm, Hb.
Qed.

Lemma overdue_count (e : env) (s : db) (m : gmap Z transactions_row) :
  length (omap (overdue_entry (date_of (now e)))
            (filter is_open (omap (join s) (map_to_list m))))
  = size (filter (overdue_loan e s) m).
Proof.
  induction m as [| k t m Hk IH] using map_ind.
  - now rewrite map_to_list_empty, map_filter_empty, map_size_empty.
  - rewrite map_to_list_insert by done. simpl.
    rewrite map_filter_insert. unfold join at 1. simpl.
    destruct (members s !! member_id t) as [mr |] eqn:Hm;
      [destruct (books s !! book_id t) as [br |] eqn:Hb |].
    + rewrite filter_cons. unfold is_open at 1. simpl.
      destruct (decide (return_date t = None)) as [Hopen | Hclosed].
      * simpl. unfold overdue_entry at 1. simpl. rewrite date_of_midnight.
        destruct (due_date t <? date_of (now e)) eqn:Hdue.
        -- apply Z.ltb_lt in Hdue. rewrite decide_True.
           ++ rewrite map_size_insert_None by (apply map_lookup_filter_None; now left).
              simpl. f_equal. exact IH.
           ++ unfold overdue_loan. simpl. rewrite Hm, Hb. eauto.
        -- apply Z.ltb_ge in Hdue. rewrite decide_False.
           ++ rewrite delete_id by done. exact IH.
           ++ unfold overdue_loan. simpl. lia.
      * rewrite decide_False; [rewrite delete_id by done; exact IH |].
        unfold overdue_loan. simpl. tauto.
    + rewrite decide_False; [rewrite delete_id by done; exact IH |].
      unfold overdue_loan. simpl. rewrite Hb. intros (_ & _ & [? ?] & _). discriminate.
    + rewrite decide_False; [rewrite delete_id by done; exact IH |].
      unfold overdue_loan. simpl. rewrite Hm. intros (_ & [? ?] & _). discriminate.
Qed.

(** X27. What _overdue_list computes from active_loans: one row for each
    open transaction that the join keeps (a row of members for its
    member_id and a row of books for its book_id) and whose due_date is
    strictly before today, with the member's name, the book's title and the
    whole days from the due_date to today followed by " days", and no other
    row. A database whose open loans are all due today or later gives an
    empty report. *)
Theorem overdue_report (e : env) (s : db) :
  (∀ row : report_row,
     row ∈ _overdue_list e s ↔
     ∃ k t m b,
       transactions s !! k = Some t ∧ return_date t = None
       ∧ members s !! member_id t = Some m ∧ books s !! book_id t = Some b
       ∧ due_date t < date_of (now e)
       ∧ row = ("Overdue", name m, title b,
                str (date_of (now e) - due_date t) +:+ " days"))
  ∧ length (_overdue_list e s) = size (filter (overdue_loan e s) (transactions s))
  ∧ ((∀ k t, transactions s !! k = Some t → return_date t = None →
             date_of (now e) ≤ due_date t) →
     _overdue_list e s = []).
Proof.
  unfold _overdue_list. rewrite overdue_loop_append. simpl.
  assert (∀ row : report_row,
            row ∈ omap (overdue_entry (date_of (now e))) (active_loans s) ↔
            ∃ k t m b,
              transactions s !! k = Some t ∧ return_date t = None
              ∧ members s !! member_id t = Some m ∧ books s !! book_id t = Some b
              ∧ due_date t < date_of (now e)
              ∧ row = ("Overdue", name m, title b,
                       str (date_of (now e) - due_date t) +:+ " days")) as Helem.
  { intros row. rewrite list_elem_of_omap. split.
    - intros (r & Hr & Hentry).
      apply active_loans_elem in Hr as (k & t & m & b & Hk & Hopen & Hm & Hb & ->).
      unfold overdue_entry in Hentry. simpl in Hentry.
      rewrite date_of_midnight, days_timedelta in Hentry.
      destruct (due_date t <? date_of (now e)) eqn:Hdue; [| discriminate].
      apply Z.ltb_lt in Hdue. injection Hentry as <-. exists k, t, m, b. done.
    - intros (k & t & m & b & Hk & Hopen & Hm & Hb & Hdue & ->).
      exists {| tx_id := k; t_cols := t; member_name := name m; book_title := title b |}.
      split; [apply active_loans_elem; exists k, t, m, b; done |].
      unfold overdue_entry. simpl. rewrite date_of_midnight, days_timedelta.
      apply Z.ltb_lt in Hdue. now rewrite Hdue. }
  split; [exact Helem |]. split.
  - unfold active_loans. rewrite merge_sort_Permutation. apply overdue_count.
  - intros Hlater.
    destruct (omap (overdue_entry (date_of (now e))) (active_loans s)) as [| row rest] eqn:E;
      [reflexivity |].
    assert (row ∈ row :: rest) as Hin by left.
    apply Helem in Hin as (k & t & _ & _ & Hk & Hopen & _ & _ & Hdue & _).
    specialize (Hlater k t Hk Hopen). lia.
Qed.

Example overdue_three_days :
  _overdue_list (healthy (noon 111)) lent_twice
  = [("Overdue", "Alice Sharma", "Clean Code", "3 days")].
Proof. vm_compute; reflexivity. Qed.

(* Alice's loan is due on day 108: the day before, it is not listed. *)
Example overdue_due_tomorrow : _overdue_list (healthy (noon 107)) lent_twice = [].
Proof. vm_compute; reflexivity. Qed.

Lemma overdue_report_witness :
  ("Overdue", "Alice Sharma", "Clean Code", "3 days")
  ∈ _overdue_list (healthy (noon 111)) lent_twice.
Proof.
  apply (proj1 (overdue_report (healthy (noon 111)) lent_twice)).
  exists 1,
    {| member_id := 1; book_id := 1; borrow_date := noon 101; due_date := 108;
       return_date := None; fine := 0 |},
    {| name := "Alice Sharma"; email := "alice@example.com" |},
    {| title := "Clean Code"; author := "Robert C. Martin"; genre := "Software";
       isbn := "9780132350884"; available := 0 |}.
  repeat split; vm_compute; reflexivity.
Defined.

(** C9. The report misses an overdue loan. The schema declares
    FOREIGN KEY(member_id) REFERENCES members, but the key is never
    enforced and borrow_book looks up the book only, so it accepted member
    77, who has no row in members; the join of active_loans then drops that
    loan. On day 112 transaction 2 is open and three days overdue, and the
    report lists Alice's loan alone. *)
Lemma overdue_report_omits_unknown_member :
  (∃ t, transactions lent_twice !! 2 = Some t
        ∧ return_date t = None
        ∧ due_date t = date_of (noon 112) - 3)
  ∧ _overdue_list (healthy (noon 112)) lent_twice
    = [("Overdue", "Alice Sharma", "Clean Code", "4 days")].
Proof.
  split; [eexists; split; [vm_compute; reflexivity | split; vm_compute; reflexivity] |].
  vm_compute; reflexivity.
Qed.

(** ** Every call is all or nothing *)



Lemma invoke_perform (e : env) (c : call) (s : db) : (invoke e c s).2 = perform e c s.
Proof. destruct c; reflexivity. Qed.



(** X3. The calls of the catalogue (add_member, update_member, add_book,
    update_book) have no try/except: when their input passes validation and
    the storage engine fails their statement, the sqlite3.Error itself reaches
    the caller, unwrapped, and nothing is stored. *)
Theorem catalogue_lets_storage_errors_through (e : env) (c : call) (s : db)
    (err : sqlite3_Error) :
  validated c = Some (Ok tt) → fault e 0%nat = Some err →
  invoke e c s = (Some (Sqlite3 err), s).
Proof.
  destruct c as [m | id n em | b | id t a g i av | m b d | tx f]; simpl;
    intros [= Hv] Hf.
  - unfold add_member, with_conn, execute. now rewrite Hv, Hf.
  - unfold update_member, with_conn, execute. now rewrite Hv, Hf.
  - unfold add_book, with_conn, execute. now rewrite Hv, Hf.
  - unfold update_book, with_conn, execute. now rewrite Hv, Hf.
Qed.

Lemma catalogue_lets_storage_errors_through_witness :
  invoke (failing (noon 105) 0 (OperationalError "database is locked"))
    (AddMember (Member.mk "Bob Khan" "bob@example.com" None)) seeded
  = (Some (Sqlite3 (OperationalError "database is locked")), seeded).
Proof.
  apply catalogue_lets_storage_errors_through; reflexivity.
Defined.

(** ** Borrowing and returning compose *)

Lemma add_available_back (r : books_row) : add_available 1 (add_available (-1) r) = r.
Proof. destruct r as [t a g i av]. unfold add_available. simpl. f_equal. lia. Qed.

Lemma alter_available_back (b : Z) (t : gmap Z books_row) :
  alter (add_available 1) b (alter (add_available (-1)) b t) = t.
Proof.
  apply map_eq. intros k. destruct (decide (b = k)) as [-> | Hne].
  - rewrite !lookup_alter_eq. destruct (t !! k) as [r |]; simpl; [| done].
    now rewrite add_available_back.
  - now rewrite !lookup_alter_ne.
Qed.

(** ** The ledger only grows *)

(** X5. No call of the interface deletes a transaction or rewrites its
    member, book, borrow_date or due_date; a transaction that is closed (its
    return_date is set) is never changed again by any call, so its
    return_date and fine are final. *)
Theorem ledger_append_only (e : env) (c : call) (s : db) (k : Z) (t : transactions_row) :
  transactions s !! k = Some t →
  ∃ t', transactions (perform e c s) !! k = Some t'
        ∧ member_id t' = member_id t ∧ book_id t' = book_id t
        ∧ borrow_date t' = borrow_date t ∧ due_date t' = due_date t
        ∧ (is_Some (return_date t) → t' = t).
Proof.
  intros Hk.
  assert (∀ s', transactions s' = transactions s →
            ∃ t', transactions s' !! k = Some t'
                  ∧ member_id t' = member_id t ∧ book_id t' = book_id t
                  ∧ borrow_date t' = borrow_date t ∧ due_date t' = due_date t
                  ∧ (is_Some (return_date t) → t' = t)) as Hsame.
  { intros s' ->. exists t. done. }
  destruct c as [m | id n em | b | id ti a g i av | m b d | tx f]; simpl.
  - apply Hsame, add_member_tables.
  - apply Hsame, update_member_tables.
  - destruct (add_book_tables e b s) as [-> | (_ & _ & Ht)]; auto.
  - destruct (update_book_tables e id ti a g i av s) as [-> | (_ & _ & _ & Ht)]; auto.
  - destruct (borrow_book_tables e m b d s) as [-> | (_ & _ & Ht)]; [auto |].
    rewrite Ht, lookup_insert_ne.
    + exists t. done.
    + intros <-. rewrite next_rowid_fresh in Hk. discriminate.
  - destruct (return_book_tables e tx f s) as [-> | (t0 & fi & Htx & Hopen & _ & Ht)];
      [auto |].
    rewrite Ht. destruct (decide (tx = k)) as [-> | Hne].
    + rewrite lookup_insert_eq. assert (t0 = t) as -> by congruence.
      eexists. split; [reflexivity |]. simpl. repeat split.
      intros [d Hd]. congruence.
    + rewrite lookup_insert_ne by done. exists t. done.
Qed.

Lemma ledger_append_only_witness :
  ∃ t', transactions (perform (healthy (noon 111)) (ReturnBook 1 5) lent_twice) !! 2 = Some t'
        ∧ member_id t' = 77 ∧ book_id t' = 1
        ∧ borrow_date t' = noon 102 ∧ due_date t' = 109
        ∧ (is_Some (@None Z) → t' = {| member_id := 77; book_id := 1; borrow_date := noon 102;
                                         due_date := 109; return_date := None; fine := 0 |}).
Proof.
  apply (ledger_append_only (healthy (noon 111)) (ReturnBook 1 5) lent_twice 2
           {| member_id := 77; book_id := 1; borrow_date := noon 102; due_date := 109;
              return_date := None; fine := 0 |}).
  vm_compute; reflexivity.
Defined.

(** ** Fines *)

(** X6. For a fine rate that is not negative the fine of a return is never
    negative, and it never goes down when the same transaction is returned at
    a later time instead. *)
Theorem fine_grows_with_time (e1 e2 : env) (tx f fine1 fine2 : Z) (s s1 s2 : db) :
  0 ≤ f → now e1 ≤ now e2 →
  return_book e1 tx f s = (Ok fine1, s1) →
  return_book e2 tx f s = (Ok fine2, s2) →
  0 ≤ fine1 ≤ fine2.
Proof.
  intros Hf Hnow. rewrite !return_book_course. unfold db_error.
  destruct (transactions s !! tx) as [row |];
    [| destruct (fault e1 0%nat); discriminate].
  destruct (return_date row);
    [destruct (fault e1 0%nat); discriminate |].
  destruct (fault e1 0%nat); [discriminate |].
  destruct (fault e1 1%nat); [discriminate |].
  destruct (fault e1 2%nat); [discriminate |].
  destruct (fault e1 3%nat); [discriminate |].
  destruct (fault e2 0%nat); [discriminate |].
  destruct (fault e2 1%nat); [discriminate |].
  destruct (fault e2 2%nat); [discriminate |].
  destruct (fault e2 3%nat); [discriminate |].
  intros [= <- _] [= <- _]. rewrite !days_since_midnight.
  assert (date_of (now e1) ≤ date_of (now e2))
    by (unfold date_of, us_per_day; apply Z.div_le_mono; lia).
  nia.
Qed.

Lemma fine_grows_with_time_witness :
  0 ≤ (Z.max (days (noon 110 - midnight 108)) 0 * 5)
    ≤ (Z.max (days (noon 111 - midnight 108)) 0 * 5).
Proof.
  eapply (fine_grows_with_time (healthy (noon 110)) (healthy (noon 111)) 1 5 _ _ lent_twice).
  - lia.
  - vm_compute; discriminate.
  - vm_compute; reflexivity.
  - vm_compute; reflexivity.
Defined.

(** ** Members and books *)

Lemma add_member_course (e : env) (m : Member.t) (s : db) :
  add_member e m s =
  match _validate_email (Member.email m) with
  | Raise x => (Raise x, s)
  | Ok _ =>
      match fault e 0%nat with
      | Some err => (Raise (Sqlite3 err), s)
      | None =>
          match fault e 1%nat with
          | Some err => (Raise (Sqlite3 err), s)
          | None =>
              let id := next_rowid (seq_members s) (members s) in
              (Ok id,
               {| members :=
                    <[id := {| name := Member.name m; email := Member.email m |}]> (members s);
                  books := books s; transactions := transactions s;
                  seq_members := id; seq_books := seq_books s;
                  seq_transactions := seq_transactions s |})
          end
      end
  end.
Proof.
  unfold add_member, with_conn, execute, insert_member.
  destruct (_validate_email (Member.email m)); [| reflexivity].
  destruct (fault e 0%nat); [reflexivity |]. simpl.
  destruct (fault e 1%nat); reflexivity.
Qed.

Lemma update_book_course (e : env) (id : Z) (t a g i : string) (av : Z) (s : db) :
  update_book e id t a g i av s =
  match _validate_isbn i with
  | Raise x => (Raise x, s)
  | Ok _ =>
      match fault e 0%nat with
      | Some err => (Raise (Sqlite3 err), s)
      | None =>
          match books s !! id with
          | None =>
              match fault e 1%nat with
              | Some err => (Raise (Sqlite3 err), s)
              | None => (Ok tt, s)
              end
          | Some _ =>
              if isbn_in_use (delete id (books s)) i
              then (Raise (Sqlite3 (IntegrityError "UNIQUE constraint failed: books.isbn")), s)
              else
                match fault e 1%nat with
                | Some err => (Raise (Sqlite3 err), s)
                | None =>
                    (Ok tt,
                     set_books
                       (<[id := {| title := t; author := a; genre := g; isbn := i;
                                   available := av |}]> (books s)) s)
                end
          end
      end
  end.
Proof.
  unfold update_book, with_conn, execute, update_book_row.
  destruct (_validate_isbn i); [| reflexivity].
  destruct (fault e 0%nat); [reflexivity |].
  destruct (books s !! id); simpl.
  - destruct (isbn_in_use (delete id (books s)) i); [reflexivity |]. simpl.
    destruct (fault e 1%nat); reflexivity.
  - destruct (fault e 1%nat); reflexivity.
Qed.

Lemma update_member_course (e : env) (id : Z) (n em : string) (s : db) :
  update_member e id n em s =
  match _validate_email em with
  | Raise x => (Raise x, s)
  | Ok _ =>
      match fault e 0%nat with
      | Some err => (Raise (Sqlite3 err), s)
      | None =>
          match fault e 1%nat with
          | Some err => (Raise (Sqlite3 err), s)
          | None =>
              (Ok tt,
               {| members := alter (λ _, {| name := n; email := em |}) id (members s);
                  books := books s; transactions := transactions s;
                  seq_members := seq_members s; seq_books := seq_books s;
                  seq_transactions := seq_transactions s |})
          end
      end
  end.
Proof.
  unfold update_member, with_conn, execute, update_member_row.
  destruct (_validate_email em); [| reflexivity].
  destruct (fault e 0%nat); [reflexivity |]. simpl.
  destruct (fault e 1%nat); reflexivity.
Qed.

Lemma next_rowid_above {A} (seq : Z) (t : gmap Z A) (k : Z) :
  is_Some (t !! k) → k < next_rowid seq t.
Proof.
  intros Hk. pose proof (proj2 (max_rowid_bound t) k Hk). unfold next_rowid. lia.
Qed.

(** X7. add_member rejects an email that fails _validate_email with
    ValidationError("Invalid email format") and stores nothing. Otherwise,
    with no storage failure, it returns an identifier that is positive, above
    every member_id in the table and above the identifier handed out last,
    and stores name and email under it; books and transactions are
    untouched. *)
Theorem add_member_stores (e : env) (m : Member.t) (s : db) :
  (_validate_email (Member.email m) ≠ Ok tt →
   add_member e m s = (Raise (ValidationError "Invalid email format"), s))
  ∧ (_validate_email (Member.email m) = Ok tt → (∀ i, fault e i = None) →
     ∃ id s',
       add_member e m s = (Ok id, s')
       ∧ 0 < id ∧ seq_members s < id ∧ (∀ k, is_Some (members s !! k) → k < id)
       ∧ members s' = <[id := {| name := Member.name m; email := Member.email m |}]> (members s)
       ∧ seq_members s' = id
       ∧ books s' = books s ∧ transactions s' = transactions s).
Proof.
  split.
  - intros Hbad. unfold add_member. unfold _validate_email in *.
    destruct (negb (re_match email_re (Member.email m))); [reflexivity | done].
  - intros Hok Hf. rewrite add_member_course, Hok, !Hf.
    eexists _, _. split; [reflexivity |]. simpl.
    split; [apply next_rowid_positive |].
    split; [unfold next_rowid; lia |].
    split; [intros k; apply next_rowid_above |]. done.
Qed.

Lemma add_member_stores_witness :
  add_member (healthy (noon 100)) (Member.mk "Eve" "eve at example" None) seeded
  = (Raise (ValidationError "Invalid email format"), seeded)
  ∧ ∃ id s',
      add_member (healthy (noon 100)) (Member.mk "Bob Khan" "bob@example.com" None) seeded
      = (Ok id, s')
      ∧ 0 < id ∧ seq_members seeded < id ∧ (∀ k, is_Some (members seeded !! k) → k < id)
      ∧ members s' = <[id := {| name := "Bob Khan"; email := "bob@example.com" |}]>
                       (members seeded)
      ∧ seq_members s' = id
      ∧ books s' = books seeded ∧ transactions s' = transactions seeded.
Proof.
  split.
  - apply (proj1 (add_member_stores (healthy (noon 100))
                    (Member.mk "Eve" "eve at example" None) seeded)).
    vm_compute; discriminate.
  - apply (proj2 (add_member_stores (healthy (noon 100))
                    (Member.mk "Bob Khan" "bob@example.com" None) seeded)).
    + vm_compute; reflexivity.
    + intros i; reflexivity.
Defined.

(** X8. Identifiers are handed out in strictly increasing order: of two
    successful add_member calls, two successful add_book calls or two
    successful borrows, whatever calls of the interface happen in between,
    the later one gets the larger identifier. *)
Theorem identifiers_increase :
  (∀ e1 e2 m1 m2 s s1 s2 id1 id2 (l : list (env * call)),
     add_member e1 m1 s = (Ok id1, s1) →
     add_member e2 m2 (foldl (λ st ec, perform ec.1 ec.2 st) s1 l) = (Ok id2, s2) →
     id1 < id2)
  ∧ (∀ e1 e2 b1 b2 s s1 s2 id1 id2 (l : list (env * call)),
       add_book e1 b1 s = (Ok id1, s1) →
       add_book e2 b2 (foldl (λ st ec, perform ec.1 ec.2 st) s1 l) = (Ok id2, s2) →
       id1 < id2)
  ∧ (∀ e1 e2 m1 m2 b1 b2 d1 d2 s s1 s2 (l : list (env * call)),
       borrow_book e1 m1 b1 d1 s = (Ok tt, s1) →
       borrow_book e2 m2 b2 d2 (foldl (λ st ec, perform ec.1 ec.2 st) s1 l) = (Ok tt, s2) →
       seq_transactions s1 < seq_transactions s2
       ∧ is_Some (transactions s1 !! seq_transactions s1)
       ∧ is_Some (transactions s2 !! seq_transactions s2)
       ∧ transactions s !! seq_transactions s1 = None).
Proof.
  assert (∀ e c st,
            seq_members st ≤ seq_members (perform e c st)
            ∧ seq_books st ≤ seq_books (perform e c st)
            ∧ seq_transactions st ≤ seq_transactions (perform e c st)) as Hstep.
  { intros e c st.
    destruct c as [m | id n em | b | id t a g i av | m b d | tx f]; simpl.
    - rewrite add_member_course.
      repeat (match goal with
              | |- context [match ?c with _ => _ end] => destruct c
              end; simpl; try lia).
      unfold next_rowid. lia.
    - rewrite update_member_course.
      repeat (match goal with
              | |- context [match ?c with _ => _ end] => destruct c
              end; simpl; try lia).
    - rewrite add_book_course.
      repeat (match goal with
              | |- context [match ?c with _ => _ end] => destruct c
              end; simpl; try lia).
      unfold next_rowid. lia.
    - rewrite update_book_course.
      repeat (match goal with
              | |- context [match ?c with _ => _ end] => destruct c
              end; simpl; try lia).
    - rewrite borrow_book_course. unfold db_error.
      repeat (match goal with
              | |- context [match ?c with _ => _ end] => destruct c
              end; simpl; try lia).
      unfold next_rowid. lia.
    - rewrite return_book_course. unfold db_error.
      repeat (match goal with
              | |- context [match ?c with _ => _ end] => destruct c
              end; simpl; try lia). }
  assert (∀ l st,
            seq_members st ≤ seq_members (foldl (λ st ec, perform ec.1 ec.2 st) st l)
            ∧ seq_books st ≤ seq_books (foldl (λ st ec, perform ec.1 ec.2 st) st l)
            ∧ seq_transactions st
              ≤ seq_transactions (foldl (λ st ec, perform ec.1 ec.2 st) st l)) as Hrun.
  { induction l as [| [e c] l IH]; intros st; simpl; [lia |].
    specialize (IH (perform e c st)). specialize (Hstep e c st). lia. }
  split; [| split].
  - intros e1 e2 m1 m2 s s1 s2 id1 id2 l. rewrite !add_member_course.
    destruct (_validate_email (Member.email m1)); [| discriminate].
    destruct (fault e1 0%nat); [discriminate |].
    destruct (fault e1 1%nat); [discriminate |]. intros [= <- <-].
    destruct (_validate_email (Member.email m2)); [| discriminate].
    destruct (fault e2 0%nat); [discriminate |].
    destruct (fault e2 1%nat); [discriminate |]. intros [= <- _].
    match goal with |- context [foldl ?f ?st l] => pose proof (Hrun l st) as H end.
    simpl in H. unfold next_rowid at 2. lia.
  - intros e1 e2 b1 b2 s s1 s2 id1 id2 l. rewrite !add_book_course.
    destruct (_validate_isbn (Book.isbn b1)); [| discriminate].
    destruct (fault e1 0%nat); [discriminate |].
    destruct (isbn_in_use (books s) (Book.isbn b1)); [discriminate |].
    destruct (fault e1 1%nat); [discriminate |]. intros [= <- <-].
    destruct (_validate_isbn (Book.isbn b2)); [| discriminate].
    destruct (fault e2 0%nat); [discriminate |].
    destruct (isbn_in_use _ (Book.isbn b2)); [discriminate |].
    destruct (fault e2 1%nat); [discriminate |]. intros [= <- _].
    match goal with |- context [foldl ?f ?st l] => pose proof (Hrun l st) as H end.
    simpl in H. unfold next_rowid at 2. lia.
  - intros e1 e2 m1 m2 b1 b2 d1 d2 s s1 s2 l. rewrite !borrow_book_course. unfold db_error.
    destruct (fault e1 0%nat); [discriminate |].
    destruct (books s !! b1) as [r1 |]; [| discriminate].
    destruct (available r1 <=? 0); [discriminate |].
    destruct (fault e1 1%nat); [discriminate |].
    destruct (fault e1 2%nat); [discriminate |].
    destruct (fault e1 3%nat); [discriminate |]. intros [= <-].
    destruct (fault e2 0%nat); [discriminate |].
    destruct (books _ !! b2) as [r2 |]; [| discriminate].
    destruct (available r2 <=? 0); [discriminate |].
    destruct (fault e2 1%nat); [discriminate |].
    destruct (fault e2 2%nat); [discriminate |].
    destruct (fault e2 3%nat); [discriminate |]. intros [= <-]. simpl.
    match goal with |- context [foldl ?f ?st l] => pose proof (Hrun l st) as H end.
    simpl in H. rewrite !lookup_insert_eq.
    split; [unfold next_rowid at 2; lia |]. split; [eauto |]. split; [eauto |].
    apply next_rowid_fresh.
Qed.

Lemma identifiers_increase_witness : 1 < 2.
Proof.
  eapply (proj1 identifiers_increase (healthy (noon 100)) (healthy (noon 102))
            alice (Member.mk "Bob Khan" "bob@example.com" None) empty_db _ _ 1 2
            [(healthy (noon 101), AddBook clean_code)]).
  - vm_compute; reflexivity.
  - vm_compute; reflexivity.
Defined.

(** ** Updates *)



(** ** More of what every reachable database satisfies *)

Lemma isbn_unique_insert (t : gmap Z books_row) (id : Z) (new : books_row) :
  (∀ k r, k ≠ id → t !! k = Some r → isbn r ≠ isbn new) →
  (∀ k1 k2 r1 r2, t !! k1 = Some r1 → t !! k2 = Some r2 → isbn r1 = isbn r2 → k1 = k2) →
  ∀ k1 k2 r1 r2,
    <[id := new]> t !! k1 = Some r1 → <[id := new]> t !! k2 = Some r2 →
    isbn r1 = isbn r2 → k1 = k2.
Proof.
  intros Hfree Huniq k1 k2 r1 r2. rewrite !lookup_insert.
  repeat case_decide; subst; try done.
  - intros [= <-] H2 Heq. destruct (Hfree k2 r2 ltac:(done) H2). done.
  - intros H1 [= <-] Heq. destruct (Hfree k1 r1 ltac:(done) H1). done.
  - apply Huniq.
Qed.

Lemma isbn_unique_alter (t : gmap Z books_row) (id d : Z) :
  (∀ k1 k2 r1 r2, t !! k1 = Some r1 → t !! k2 = Some r2 → isbn r1 = isbn r2 → k1 = k2) →
  ∀ k1 k2 r1 r2,
    alter (add_available d) id t !! k1 = Some r1 →
    alter (add_available d) id t !! k2 = Some r2 →
    isbn r1 = isbn r2 → k1 = k2.
Proof.
  intros Huniq k1 k2 r1 r2 H1 H2 Heq.
  assert (∀ k r, alter (add_available d) id t !! k = Some r →
                 ∃ r0, t !! k = Some r0 ∧ isbn r0 = isbn r) as Hback.
  { intros k r. rewrite lookup_alter. case_decide; [subst k | eauto].
    destruct (t !! id) as [r0 |]; [| discriminate]. intros [= <-]. eauto. }
  apply Hback in H1 as (q1 & Hq1 & E1). apply Hback in H2 as (q2 & Hq2 & E2).
  apply (Huniq k1 k2 q1 q2 Hq1 Hq2). congruence.
Qed.

Lemma isbn_unique_perform (e : env) (c : call) (s : db) :
  isbn_unique s → isbn_unique (perform e c s).
Proof.
  unfold isbn_unique. intros Hs.
  destruct c as [m | id n em | b | id t a g i av | m b d | tx f]; simpl.
  - now rewrite (proj1 (add_member_tables e m s)).
  - now rewrite (proj1 (update_member_tables e id n em s)).
  - rewrite add_book_course.
    destruct (_validate_isbn (Book.isbn b)); [| done].
    destruct (fault e 0%nat); [done |].
    destruct (isbn_in_use (books s) (Book.isbn b)) eqn:Huse; [done |].
    destruct (fault e 1%nat); [done |]. simpl.
    apply isbn_unique_insert; [| done].
    intros k r _ Hk Heq.
    assert (isbn_in_use (books s) (Book.isbn b) = true)
      by (apply isbn_in_use_true; eauto). congruence.
  - rewrite update_book_course.
    destruct (_validate_isbn i); [| done].
    destruct (fault e 0%nat); [done |].
    destruct (books s !! id); [| destruct (fault e 1%nat); done].
    destruct (isbn_in_use (delete id (books s)) i) eqn:Huse; [done |].
    destruct (fault e 1%nat); [done |]. simpl.
    apply isbn_unique_insert; [| done].
    intros k r Hne Hk Heq.
    assert (isbn_in_use (delete id (books s)) i = true); [| congruence].
    apply isbn_in_use_true. exists k, r. split; [| done].
    apply lookup_delete_Some. done.
  - destruct (borrow_book_tables e m b d s) as [-> | (_ & Hb & _)]; [done |].
    rewrite Hb. now apply isbn_unique_alter.
  - destruct (return_book_tables e tx f s) as [-> | (t & fi & _ & _ & Hb & _)]; [done |].
    rewrite Hb. now apply isbn_unique_alter.
Qed.

(** X12. In every database reached through the interface no two books carry
    the same isbn, and every isbn stored passes _validate_isbn: add_book and
    update_book are the only calls that write an isbn, and both validate and
    keep the column unique. *)
Theorem reachable_isbns (s : db) :
  reachable s →
  (∀ k1 k2 r1 r2,
     books s !! k1 = Some r1 → books s !! k2 = Some r2 → isbn r1 = isbn r2 → k1 = k2)
  ∧ (∀ k r, books s !! k = Some r → _validate_isbn (isbn r) = Ok tt).
Proof.
  intros Hs. split.
  - induction Hs as [| e c s _ IH].
    + intros k1 k2 r1 r2 H1. simpl in H1. now rewrite lookup_empty in H1.
    + now apply isbn_unique_perform.
  - exact (isbns_valid s (reachable_consistent s Hs)).
Qed.

Lemma two_books_reachable : reachable two_books.
Proof.
  exact (reach_call (healthy (noon 100))
           (AddBook (Book.mk "Python Crash Course" "Eric Matthes" "Programming"
                       "9781593276034" 3 None)) _ seeded_reachable).
Qed.

Lemma reachable_isbns_witness : _validate_isbn "9781593276034" = Ok tt.
Proof.
  apply (proj2 (reachable_isbns two_books two_books_reachable) 2
           {| title := "Python Crash Course"; author := "Eric Matthes";
              genre := "Programming"; isbn := "9781593276034"; available := 3 |}).
  vm_compute; reflexivity.
Defined.

Lemma emails_valid_perform (e : env) (c : call) (s : db) :
  emails_valid s → emails_valid (perform e c s).
Proof.
  unfold emails_valid. intros Hs.
  destruct c as [m | id n em | b | id t a g i av | m b d | tx f]; simpl.
  - rewrite add_member_course.
    destruct (_validate_email (Member.email m)) as [[] |] eqn:Hv; [| done].
    destruct (fault e 0%nat); [done |].
    destruct (fault e 1%nat); [done |]. simpl.
    intros k r. rewrite lookup_insert. case_decide; [intros [= <-]; done | eauto].
  - rewrite update_member_course.
    destruct (_validate_email em) as [[] |] eqn:Hv; [| done].
    destruct (fault e 0%nat); [done |].
    destruct (fault e 1%nat); [done |]. simpl.
    intros k r. rewrite lookup_alter. case_decide; [subst k | eauto].
    destruct (members s !! id); [| discriminate]. intros [= <-]. done.
  - rewrite add_book_course.
    repeat (match goal with
            | |- context [match ?x with _ => _ end] => destruct x
            end; simpl; try done).
  - rewrite update_book_course.
    repeat (match goal with
            | |- context [match ?x with _ => _ end] => destruct x
            end; simpl; try done).
  - rewrite borrow_book_course. unfold db_error.
    repeat (match goal with
            | |- context [match ?x with _ => _ end] => destruct x
            end; simpl; try done).
  - rewrite return_book_course. unfold db_error.
    repeat (match goal with
            | |- context [match ?x with _ => _ end] => destruct x
            end; simpl; try done).
Qed.

(** X13. In every database reached through the interface every email stored
    in members passes _validate_email: add_member and update_member are the
    only calls that write members, and both validate first. *)
Theorem reachable_emails (s : db) (k : Z) (r : members_row) :
  reachable s → members s !! k = Some r → _validate_email (email r) = Ok tt.
Proof.
  intros Hs. revert k r. change (emails_valid s).
  induction Hs as [| e c s _ IH].
  - intros k r H. simpl in H. now rewrite lookup_empty in H.
  - now apply emails_valid_perform.
Qed.

Lemma reachable_emails_witness : _validate_email "alice@example.com" = Ok tt.
Proof.
  apply (reachable_emails seeded 1 {| name := "Alice Sharma"; email := "alice@example.com" |}).
  - apply seeded_reachable.
  - vm_compute; reflexivity.
Defined.

(** X14. In every database reached through the interface each transaction
    names a book that has a row in books, although no foreign key is
    enforced: borrow_book looks the book up before it inserts, and no call
    deletes a book. (The member of a transaction may have no row.) *)
Theorem reachable_loans_have_books (s : db) (k : Z) (t : transactions_row) :
  reachable s → transactions s !! k = Some t → is_Some (books s !! book_id t).
Proof.
  intros Hs. exact (loans_have_books s (reachable_consistent s Hs) k t).
Qed.

Lemma lent_twice_reachable : reachable lent_twice.
Proof.
  exact (reach_call (healthy (noon 102)) (BorrowBook 77 1 7) _
           (reach_call (healthy (noon 101)) (BorrowBook 1 1 7) _ seeded_reachable)).
Qed.

Lemma reachable_loans_have_books_witness :
  is_Some (books lent_twice !! 1) ∧ members lent_twice !! 77 = None.
Proof.
  split.
  - apply (reachable_loans_have_books lent_twice 2
             {| member_id := 77; book_id := 1; borrow_date := noon 102; due_date := 109;
                return_date := None; fine := 0 |}).
    + apply lent_twice_reachable.
    + vm_compute; reflexivity.
  - vm_compute; reflexivity.
Defined.

(** ** The order and the content of the reports *)

Lemma strongly_sorted_lookup {A} (R : relation A) (l : list A) :
  StronglySorted R l →
  ∀ i j x y, (i < j)%nat → l !! i = Some x → l !! j = Some y → R x y.
Proof.
  induction 1 as [| a l Hl IH Hall]; intros i j x y Hij Hi Hj.
  - now rewrite lookup_nil in Hi.
  - destruct j as [| j]; [lia |]. simpl in Hj. destruct i as [| i]; simpl in Hi.
    + injection Hi as <-. rewrite Forall_forall in Hall. apply Hall.
      eapply list_elem_of_lookup_2. exact Hj.
    + apply (IH i j); [lia | done | done].
Qed.

Lemma joined_ids_NoDup (s : db) (l : list (Z * transactions_row)) :
  NoDup l.*1 → NoDup (tx_id <$> omap (join s) l).
Proof.
  induction l as [| [k t] l IH]; simpl; intros Hnd; [constructor |].
  apply NoDup_cons in Hnd as [Hk Hl]. unfold join at 1. simpl.
  destruct (members s !! member_id t); [destruct (books s !! book_id t) |]; auto.
  simpl. apply NoDup_cons. split; [| auto].
  intros Hin. apply Hk. apply list_elem_of_fmap in Hin as (r & -> & Hr).
  apply list_elem_of_omap in Hr as ([k' t'] & Hin' & Hjoin).
  unfold join in Hjoin. simpl in Hjoin.
  destruct (members s !! member_id t'); [destruct (books s !! book_id t') |];
    try discriminate.
  injection Hjoin as <-. simpl. apply list_elem_of_fmap. exists (k', t'). done.
Qed.

Lemma sorted_rows_decrease (l : list joined_row) :
  NoDup (tx_id <$> l) →
  ∀ i j r1 r2, (i < j)%nat →
    merge_sort tx_id_desc l !! i = Some r1 → merge_sort tx_id_desc l !! j = Some r2 →
    tx_id r2 < tx_id r1.
Proof.
  intros Hnd i j r1 r2 Hij H1 H2.
  assert (tx_id r2 ≤ tx_id r1) as Hle.
  { refine (strongly_sorted_lookup tx_id_desc _ _ i j r1 r2 Hij H1 H2).
    apply StronglySorted_merge_sort.
    - intros x y z. unfold tx_id_desc. lia.
    - intros x y. unfold tx_id_desc. lia. }
  assert (NoDup (tx_id <$> merge_sort tx_id_desc l)) as Hnd'
    by now rewrite merge_sort_Permutation.
  destruct (decide (tx_id r1 = tx_id r2)) as [Heq | Hne]; [| lia].
  exfalso. assert (i = j); [| lia].
  apply (NoDup_lookup _ i j (tx_id r1) Hnd').
  - now rewrite list_lookup_fmap, H1.
  - now rewrite list_lookup_fmap, H2, Heq.
Qed.

(** X15. active_loans and history list their rows by tx_id in strictly
    decreasing order, most recently created first, and no transaction appears
    twice. *)
Theorem reports_newest_first (s : db) (i j : nat) (r1 r2 : joined_row) :
  (i < j)%nat →
  (active_loans s !! i = Some r1 → active_loans s !! j = Some r2 → tx_id r2 < tx_id r1)
  ∧ (history s !! i = Some r1 → history s !! j = Some r2 → tx_id r2 < tx_id r1).
Proof.
  intros Hij. pose proof (joined_ids_NoDup s _ (NoDup_fst_map_to_list (transactions s))) as Hnd.
  split.
  - apply sorted_rows_decrease; [| done].
    eapply sublist_NoDup; [exact Hnd | apply fmap_sublist, sublist_filter].
  - now apply sorted_rows_decrease.
Qed.

Lemma reports_newest_first_witness : 1 < 2.
Proof.
  apply (proj2 (reports_newest_first two_loans 0 1
                  {| tx_id := 2;
                     t_cols := {| member_id := 1; book_id := 1; borrow_date := noon 102;
                                  due_date := 109; return_date := None; fine := 0 |};
                     member_name := "Alice Sharma"; book_title := "Clean Code" |}
                  {| tx_id := 1;
                     t_cols := {| member_id := 1; book_id := 1; borrow_date := noon 101;
                                  due_date := 108; return_date := None; fine := 0 |};
                     member_name := "Alice Sharma"; book_title := "Clean Code" |}
                  ltac:(lia)));
    vm_compute; reflexivity.
Defined.

Lemma history_elem (s : db) (r : joined_row) :
  r ∈ history s ↔
  ∃ k t m b,
    transactions s !! k = Some t
    ∧ members s !! member_id t = Some m ∧ books s !! book_id t = Some b
    ∧ r = {| tx_id := k; t_cols := t; member_name := name m; book_title := title b |}.
Proof.
  unfold history. rewrite merge_sort_Permutation, list_elem_of_omap. split.
  - intros [[k t] [Hin Hjoin]]. apply elem_of_map_to_list in Hin.
    unfold join in Hjoin. simpl in Hjoin.
    destruct (members s !! member_id t) as [m |] eqn:Hm; [| discriminate].
    destruct (books s !! book_id t) as [b |] eqn:Hb; [| discriminate].
    injection Hjoin as <-. exists k, t, m, b. done.
  - intros (k & t & m & b & Hk & Hm & Hb & ->).
    exists (k, t). split; [now apply elem_of_map_to_list |].
    unfold join. simpl. now rewrite Hm, Hb.
Qed.

(** X16. The rows of active_loans are exactly the rows of history whose
    return_date is NULL. A successful return takes the transaction out of
    active_loans; when its member and book have rows, history then shows it
    with the return_date of today and the fine that return_book returned,
    which is the row the invoice is made from. *)
Theorem return_moves_loan_to_history (e : env) (tx f fine_ : Z) (s s' : db) :
  return_book e tx f s = (Ok fine_, s') →
  (∀ r, r ∈ active_loans s' ↔ r ∈ history s' ∧ return_date (t_cols r) = None)
  ∧ (∀ r, r ∈ active_loans s' → tx_id r ≠ tx)
  ∧ (∀ t m b,
       transactions s !! tx = Some t → members s !! member_id t = Some m →
       books s !! book_id t = Some b →
       ∃ r, r ∈ history s' ∧ tx_id r = tx ∧ member_name r = name m ∧ book_title r = title b
            ∧ return_date (t_cols r) = Some (date_of (now e)) ∧ fine (t_cols r) = fine_).
Proof.
  intros Hret. split; [| split].
  - intros r. rewrite active_loans_elem, history_elem. split.
    + intros (k & t & m & b & Hk & Hopen & Hm & Hb & ->). split; [| done].
      exists k, t, m, b. done.
    + intros [(k & t & m & b & Hk & Hm & Hb & ->) Hopen]. exists k, t, m, b. done.
  - intros r Hr Heq. apply active_loans_elem in Hr as (k & t & m & b & Hk & Hopen & _ & _ & ->).
    simpl in Heq. subst k.
    destruct (return_book_closes e tx f fine_ s s' Hret) as (t' & Ht' & Hd & _). congruence.
  - intros t m b Ht Hm Hb. revert Hret. rewrite return_book_course, Ht. unfold db_error.
    destruct (fault e 0%nat); [discriminate |].
    destruct (return_date t) eqn:Hopen; [discriminate |].
    destruct (fault e 1%nat); [discriminate |].
    destruct (fault e 2%nat); [discriminate |].
    destruct (fault e 3%nat); [discriminate |].
    intros [= <- <-].
    eexists {| tx_id := tx; t_cols := close_row _ _ t; member_name := name m;
               book_title := _ |}.
    split; [| simpl; split; [reflexivity |]; split; [reflexivity |]; split;
              [reflexivity |]; split; reflexivity].
    apply history_elem. simpl.
    exists tx, (close_row (date_of (now e))
                  (Z.max (days (now e - midnight (due_date t))) 0 * f) t), m,
      (if decide (book_id t = book_id t) then add_available 1 b else b).
    rewrite lookup_alter_eq, Ht. simpl. rewrite lookup_alter_eq, Hb. simpl.
    rewrite decide_True by done. done.
Qed.

Lemma return_moves_loan_to_history_witness :
  ∃ r, r ∈ history (return_book (healthy (noon 111)) 1 5 lent_twice).2
       ∧ tx_id r = 1 ∧ member_name r = "Alice Sharma" ∧ book_title r = "Clean Code"
       ∧ return_date (t_cols r) = Some (date_of (noon 111)) ∧ fine (t_cols r) = 15.
Proof.
  apply (proj2 (proj2 (return_moves_loan_to_history (healthy (noon 111)) 1 5 15 lent_twice
                         (return_book (healthy (noon 111)) 1 5 lent_twice).2
                         ltac:(vm_compute; reflexivity)))
           {| member_id := 1; book_id := 1; borrow_date := noon 101; due_date := 108;
              return_date := None; fine := 0 |}
           {| name := "Alice Sharma"; email := "alice@example.com" |}
           {| title := "Clean Code"; author := "Robert C. Martin"; genre := "Software";
              isbn := "9780132350884"; available := 0 |});
    vm_compute; reflexivity.
Defined.

(** ** The matcher finds what the pattern matches *)

Lemma rep_spec (p : ascii → bool) (s : list ascii) :
  ∀ lo hi pos k,
    rep p lo hi pos s k = true ↔
    ∃ pre rest,
      s = pre ++ rest ∧ forallb p pre = true ∧ (lo ≤ length pre)%nat
      ∧ within hi (length pre) ∧ k (pos + length pre)%nat rest = true.
Proof.
  induction s as [| c s IH]; intros lo hi pos k; simpl.
  - rewrite andb_true_iff, Nat.eqb_eq. split.
    + intros [-> Hk]. exists [], []. simpl. rewrite Nat.add_0_r.
      repeat split; [lia | destruct hi; simpl; lia | done].
    + intros (pre & rest & Hs & _ & Hlo & _ & Hk).
      symmetry in Hs. apply app_eq_nil in Hs as [-> ->]. simpl in *.
      rewrite Nat.add_0_r in Hk. split; [lia | done].
  - rewrite orb_true_iff, !andb_true_iff, Nat.eqb_eq, IH. split.
    + intros [[[Hp Hmore] (pre & rest & -> & Hall & Hlo & Hhi & Hk)] | [-> Hk]].
      * exists (c :: pre), rest. simpl. rewrite Hp, Hall.
        repeat split; [lia | | rewrite <- Hk; f_equal; lia].
        destruct hi as [[| h] |]; simpl in *; [discriminate | lia | done].
      * exists [], (c :: s). simpl. rewrite Nat.add_0_r.
        repeat split; [lia | destruct hi; simpl; lia | done].
    + intros ([| c' pre] & rest & Hs & Hall & Hlo & Hhi & Hk); simpl in *.
      * right. subst rest. rewrite Nat.add_0_r in Hk. split; [lia | done].
      * left. injection Hs as <- ->. apply andb_true_iff in Hall as [Hp Hall].
        split; [split; [done |] |].
        -- destruct hi as [[| h] |]; simpl in *; [lia | done | done].
        -- exists pre, rest.
           repeat split; [done | lia | | rewrite <- Hk; f_equal; lia].
           destruct hi as [[| h] |]; simpl in *; [lia | lia | done].
Qed.

Lemma run_spec (r : regex) :
  ∀ pos s k,
    run r pos s k = true ↔ ∃ pos' s', matches r pos s pos' s' ∧ k pos' s' = true.
Proof.
  induction r as [| | p | p lo hi | r1 IH1 r2 IH2 | r1 IH1 r2 IH2 | r1 IH1];
    intros pos s k; simpl.
  - rewrite andb_true_iff, Nat.eqb_eq. split.
    + intros [-> Hk]. exists 0%nat, s. done.
    + intros (pos' & s' & (-> & -> & ->) & Hk). done.
  - split.
    + destruct s as [| c [| c' s]]; [| | discriminate].
      * intros Hk. exists pos, []. split; [split; [now left | done] | done].
      * rewrite andb_true_iff. intros [Hc Hk]. apply Ascii.eqb_eq in Hc as ->.
        exists pos, [newline]. split; [split; [now right | done] | done].
    + intros (pos' & s' & ([-> | ->] & -> & ->) & Hk); [done |].
      now rewrite Ascii.eqb_refl.
  - split.
    + destruct s as [| c s]; [discriminate |]. rewrite andb_true_iff. intros [Hp Hk].
      exists (S pos), s. split; [exists c; done | done].
    + intros (pos' & s' & (c & -> & Hp & ->) & Hk). now rewrite Hp.
  - rewrite rep_spec. split.
    + intros (pre & rest & -> & Hall & Hlo & Hhi & Hk).
      eexists _, rest. split; [exists pre; done | done].
    + intros (pos' & s' & (pre & -> & Hall & Hlo & Hhi & ->) & Hk).
      exists pre, s'. done.
  - rewrite IH1. split.
    + intros (p1 & s1 & H1 & H2). apply IH2 in H2 as (pos' & s' & H2 & Hk).
      exists pos', s'. split; [exists p1, s1; done | done].
    + intros (pos' & s' & (p1 & s1 & H1 & H2) & Hk).
      exists p1, s1. split; [done |]. apply IH2. eauto.
  - rewrite orb_true_iff, IH1, IH2. split.
    + intros [(pos' & s' & H & Hk) | (pos' & s' & H & Hk)]; exists pos', s'; tauto.
    + intros (pos' & s' & [H | H] & Hk); [left | right]; eauto.
  - rewrite orb_true_iff, IH1. split.
    + intros [(pos' & s' & H & Hk) | Hk]; [exists pos', s'; tauto |].
      exists pos, s. tauto.
    + intros (pos' & s' & [H | [-> ->]] & Hk); [left; eauto | now right].
Qed.

Lemma re_match_spec (r : regex) (s : string) :
  re_match r s = true ↔ ∃ pos' s', matches r 0 (list_ascii_of_string s) pos' s'.
Proof.
  unfold re_match. rewrite run_spec. split.
  - intros (pos' & s' & H & _). eauto.
  - intros (pos' & s' & H). eauto.
Qed.

Lemma validate_isbn_ok (i : string) :
  _validate_isbn i = Ok tt ↔ re_match isbn_re i = true.
Proof. unfold _validate_isbn. destruct (re_match isbn_re i); simpl; split; done. Qed.

Lemma validate_email_ok (em : string) :
  _validate_email em = Ok tt ↔ re_match email_re em = true.
Proof. unfold _validate_email. destruct (re_match email_re em); simpl; split; done. Qed.

(** ** The strings the validators accept *)

Ltac break :=
  repeat match goal with
         | H : ∃ _, _ |- _ => destruct H
         | H : _ ∧ _ |- _ => destruct H
         | H : chr _ _ = true |- _ => apply Ascii.eqb_eq in H
         end.

Lemma nonempty_length {A} (l : list A) : (1 ≤ length l)%nat ↔ l ≠ [].
Proof. destruct l; simpl; split; try done; try lia. Qed.

Lemma email_shape_sound (em : string) :
  _validate_email em = Ok tt →
  ∃ body nl,
    list_ascii_of_string em = body ++ nl ∧ (nl = [] ∨ nl = [newline]) ∧ email_shape body.
Proof.
  rewrite validate_email_ok, re_match_spec. unfold email_re, email_shape. cbn [matches].
  intros H. break. subst.
  match goal with
  | H : list_ascii_of_string em = ?a ++ _ :: ?b ++ _ :: ?c ++ ?n |- _ =>
      exists (a ++ "@"%char :: b ++ "."%char :: c), n; split;
      [rewrite H; repeat (rewrite <- app_assoc; simpl); reflexivity |];
      split; [done |]; exists a, b, c
  end.
  rewrite <- !nonempty_length. done.
Qed.

Lemma email_shape_complete (em : string) :
  (∃ body nl,
     list_ascii_of_string em = body ++ nl ∧ (nl = [] ∨ nl = [newline]) ∧ email_shape body) →
  _validate_email em = Ok tt.
Proof.
  rewrite validate_email_ok, re_match_spec. unfold email_re, email_shape. cbn [matches].
  intros (body & nl & Hl & Hnl & local & domain & tld & H1 & H2 & H3 & H4 & H5 & H6 & ->).
  rewrite <- nonempty_length in H1, H3, H5. rewrite Hl.
  repeat (rewrite <- app_assoc; simpl).
  exists (length local + 1 + length domain + 1 + length tld)%nat, nl.
  eexists 0%nat, _. split; [split; [reflexivity | split; reflexivity] |].
  eexists _, _. split; [exists local; split; [reflexivity | done] |].
  eexists _, _. split; [exists "@"%char; split; [reflexivity | done] |].
  eexists _, _. split; [exists domain; split; [reflexivity | done] |].
  eexists _, _. split; [exists "."%char; split; [reflexivity | done] |].
  eexists _, _. split; [exists tld; split; [reflexivity | done] |].
  split; [done |]. split; [lia | done].
Qed.

Lemma isbn_shape_sound (i : string) :
  _validate_isbn i = Ok tt →
  ∃ body nl,
    list_ascii_of_string i = body ++ nl ∧ (nl = [] ∨ nl = [newline])
    ∧ (plain_isbn body ∨ hyphenated_isbn body).
Proof.
  rewrite validate_isbn_ok, re_match_spec. unfold isbn_re, plain_isbn, hyphenated_isbn.
  cbn [matches].
  intros (pos' & s' & [H | H]).
  + destruct H as (p1 & s1 & (_ & -> & ->) & p2 & s2 & Hopt & p3 & s3 &
                   (ds & -> & Hds & Hlo & Hhi & ->) & p4 & s4 & Hlast & Hnl & -> & <-).
    simpl in Hhi.
    assert (∃ c, s3 = c :: s' ∧ digit_X c = true) as (c & -> & Hc).
    { destruct Hlast as [(c & -> & Hc & _) | (c & -> & Hc & _)]; exists c;
        (split; [done |]); unfold digit_X; rewrite Hc; [done | apply orb_true_r]. }
    assert (∃ pre, list_ascii_of_string i = pre ++ ds ++ c :: s'
                   ∧ (pre = [] ∨ pre = list_ascii_of_string "978"
                      ∨ pre = list_ascii_of_string "979")) as (pre & Hl & Hpre).
    { clear Hlast.
      destruct Hopt as [(q1 & t1 & (c1 & Ht1 & Hc1 & _) & q2 & t2 & (c2 & -> & Hc2 & _)
                         & Hthird) | [_ <-]].
      - apply Ascii.eqb_eq in Hc1 as <-. apply Ascii.eqb_eq in Hc2 as <-. rewrite Ht1.
        destruct Hthird as [(c3 & -> & Hc3 & _) | (c3 & -> & Hc3 & _)];
          apply Ascii.eqb_eq in Hc3 as <-;
          [exists (list_ascii_of_string "978") | exists (list_ascii_of_string "979")];
          (split; [reflexivity | tauto]).
      - exists []. split; [reflexivity | tauto]. }
    exists (pre ++ ds ++ [c]), s'. split.
    { rewrite Hl. repeat (rewrite <- app_assoc; simpl). reflexivity. }
    split; [done |]. left. exists pre, ds, c. repeat split; try done. lia.
  + break. subst. simpl in *.
    match goal with
    | H : list_ascii_of_string i = ?a ++ _ :: ?b ++ _ :: ?c ++ _ :: ?d :: ?n |- _ =>
        exists (a ++ "-"%char :: b ++ "-"%char :: c ++ "-"%char :: [d]), n; split;
        [rewrite H; repeat (rewrite <- app_assoc; simpl); reflexivity |];
        split; [done |]; right; exists a, b, c, d
    end.
    repeat split; done.
Qed.

Lemma isbn_shape_complete (i : string) :
  (∃ body nl,
     list_ascii_of_string i = body ++ nl ∧ (nl = [] ∨ nl = [newline])
     ∧ (plain_isbn body ∨ hyphenated_isbn body)) →
  _validate_isbn i = Ok tt.
Proof.
  rewrite validate_isbn_ok, re_match_spec. unfold isbn_re, plain_isbn, hyphenated_isbn.
  cbn [matches].
  intros (body & nl & Hl & Hnl & [H | H]).
  + destruct H as (pre & ds & c & Hpre & Hlen & Hds & Hc & ->). rewrite Hl.
    repeat (rewrite <- app_assoc; simpl).
    exists (length pre + 10)%nat, nl. left.
    eexists 0%nat, _. split; [split; [reflexivity | split; reflexivity] |].
    exists (length pre), (ds ++ c :: nl). split.
    { destruct Hpre as [-> | [-> | ->]]; [right; done | left | left]; simpl.
      - eexists _, _. split; [exists "9"%char; done |].
        eexists _, _. split; [exists "7"%char; done |]. left. exists "8"%char. done.
      - eexists _, _. split; [exists "9"%char; done |].
        eexists _, _. split; [exists "7"%char; done |]. right. exists "9"%char. done. }
    eexists _, _. split; [exists ds; split; [reflexivity |]; simpl; repeat split; (done || lia) |].
    eexists _, nl. split.
    { unfold digit_X in Hc. apply orb_true_iff in Hc as [Hc | Hc];
        [left | right]; exists c; done. }
    split; [done |]. split; [lia | done].
  + destruct H as (g1 & g2 & g3 & c & H1 & L1 & H2 & L2 & H3 & L3 & Hc & ->). rewrite Hl.
    repeat (rewrite <- app_assoc; simpl).
    exists (length g1 + 1 + length g2 + 1 + length g3 + 1 + 1)%nat, nl. right.
    eexists 0%nat, _. split; [split; [reflexivity | split; reflexivity] |].
    eexists _, _. split; [exists g1; split; [reflexivity |]; simpl; repeat split; (done || lia) |].
    eexists _, _. split; [exists "-"%char; split; [reflexivity | done] |].
    eexists _, _. split; [exists g2; split; [reflexivity |]; simpl; repeat split; (done || lia) |].
    eexists _, _. split; [exists "-"%char; split; [reflexivity | done] |].
    eexists _, _. split; [exists g3; split; [reflexivity |]; simpl; repeat split; (done || lia) |].
    eexists _, _. split; [exists "-"%char; split; [reflexivity | done] |].
    eexists _, nl. split; [exists c; split; [reflexivity | done] |].
    split; [done |]. split; [lia | done].
Qed.

Lemma list_ascii_of_append (a b : string) :
  list_ascii_of_string (a +:+ b) = list_ascii_of_string a ++ list_ascii_of_string b.
Proof. induction a as [| c a IH]; simpl; [done | now rewrite IH]. Qed.

(** X19. _validate_isbn verifies no check digit: every string of ten digits
    passes, and so does every such string with 978 or 979 in front. *)
Theorem isbn_check_digit_not_verified (i : string) :
  length (list_ascii_of_string i) = 10%nat →
  forallb digit (list_ascii_of_string i) = true →
  _validate_isbn i = Ok tt
  ∧ _validate_isbn ("978" +:+ i) = Ok tt
  ∧ _validate_isbn ("979" +:+ i) = Ok tt.
Proof.
  intros Hlen Hall.
  assert (∃ ds c, list_ascii_of_string i = ds ++ [c] ∧ length ds = 9%nat
                  ∧ forallb digit ds = true ∧ digit_X c = true) as (ds & c & Hl & Hds & Hd & Hc).
  { destruct (list_ascii_of_string i)
      as [| c1 [| c2 [| c3 [| c4 [| c5 [| c6 [| c7 [| c8 [| c9 [| c10 [| c11 l]]]]]]]]]]];
      try discriminate.
    exists [c1; c2; c3; c4; c5; c6; c7; c8; c9], c10.
    simpl in Hall. repeat (apply andb_true_iff in Hall as [? Hall]).
    split; [reflexivity |]. split; [reflexivity |]. split.
    - simpl. repeat (apply andb_true_iff; split; [done |]). done.
    - unfold digit_X. match goal with H : digit c10 = true |- _ => now rewrite H end. }
  split; [| split]; apply isbn_shape_complete.
  - exists (ds ++ [c]), []. rewrite app_nil_r. split; [done |]. split; [now left |].
    left. exists [], ds, c. simpl. tauto.
  - exists (list_ascii_of_string "978" ++ ds ++ [c]), []. rewrite app_nil_r.
    split; [now rewrite list_ascii_of_append, Hl |]. split; [now left |].
    left. exists (list_ascii_of_string "978"), ds, c. tauto.
  - exists (list_ascii_of_string "979" ++ ds ++ [c]), []. rewrite app_nil_r.
    split; [now rewrite list_ascii_of_append, Hl |]. split; [now left |].
    left. exists (list_ascii_of_string "979"), ds, c. tauto.
Qed.

Lemma isbn_check_digit_not_verified_witness :
  _validate_isbn "0000000001" = Ok tt
  ∧ _validate_isbn ("978" +:+ "0000000001") = Ok tt
  ∧ _validate_isbn ("979" +:+ "0000000001") = Ok tt.
Proof. apply isbn_check_digit_not_verified; reflexivity. Defined.

Lemma digit_not_hyphen (c : ascii) : digit_X c = true → c ≠ "-"%char.
Proof. intros H ->. vm_compute in H. discriminate. Qed.

Lemma digits_no_hyphen (l : list ascii) :
  forallb digit l = true → count_occ ascii_dec l "-"%char = 0%nat.
Proof.
  induction l as [| c l IH]; simpl; [done |].
  intros [Hc Hl]%andb_true_iff. destruct (ascii_dec c "-") as [-> | _]; [| auto].
  vm_compute in Hc. discriminate.
Qed.

Lemma count_one (c x : ascii) : c ≠ x → count_occ ascii_dec [c] x = 0%nat.
Proof. intros H. simpl. now destruct (ascii_dec c x). Qed.

Lemma newline_count (nl : list ascii) (x : ascii) :
  nl = [] ∨ nl = [newline] → x ≠ newline → count_occ ascii_dec nl x = 0%nat.
Proof. intros [-> | ->] Hx; [done |]. apply count_one. congruence. Qed.

(** X20. An isbn that _validate_isbn accepts contains no hyphen at all or
    exactly three: the pattern has no form for the four hyphens of a
    hyphenated ISBN-13. *)
Theorem isbn_hyphens_none_or_three (i : string) :
  _validate_isbn i = Ok tt →
  count_occ ascii_dec (list_ascii_of_string i) "-"%char = 0%nat
  ∨ count_occ ascii_dec (list_ascii_of_string i) "-"%char = 3%nat.
Proof.
  intros (body & nl & -> & Hnl & Hbody)%isbn_shape_sound.
  rewrite count_occ_app, (newline_count nl "-" Hnl) by (vm_compute; discriminate).
  destruct Hbody as [(pre & ds & c & Hpre & _ & Hds & Hc & ->)
                    | (g1 & g2 & g3 & c & H1 & _ & H2 & _ & H3 & _ & Hc & ->)].
  - left. rewrite !count_occ_app, (digits_no_hyphen ds Hds),
      (count_one c "-" (digit_not_hyphen c Hc)).
    destruct Hpre as [-> | [-> | ->]]; reflexivity.
  - right. rewrite count_occ_app, (digits_no_hyphen g1 H1). simpl.
    rewrite count_occ_app, (digits_no_hyphen g2 H2). simpl.
    rewrite count_occ_app, (digits_no_hyphen g3 H3). simpl.
    destruct (ascii_dec c "-") as [Heq | _]; [| reflexivity].
    now apply digit_not_hyphen in Hc.
Qed.

Lemma isbn_hyphens_none_or_three_witness :
  count_occ ascii_dec (list_ascii_of_string "0-306-40615-2") "-"%char = 0%nat
  ∨ count_occ ascii_dec (list_ascii_of_string "0-306-40615-2") "-"%char = 3%nat.
Proof. apply isbn_hyphens_none_or_three. reflexivity. Defined.

Example isbn_13_with_hyphens_rejected :
  _validate_isbn "978-1-59327-603-4" = Raise (ValidationError "Invalid ISBN").
Proof. reflexivity. Qed.

Lemma class_no_at (l : list ascii) :
  forallb word_dot_dash l = true → count_occ ascii_dec l "@"%char = 0%nat.
Proof.
  induction l as [| c l IH]; simpl; [done |].
  intros [Hc Hl]%andb_true_iff. destruct (ascii_dec c "@") as [-> | _]; [| auto].
  vm_compute in Hc. discriminate.
Qed.

Lemma word_is_word_dot_dash (l : list ascii) :
  forallb word l = true → forallb word_dot_dash l = true.
Proof.
  induction l as [| c l IH]; simpl; [done |].
  intros [Hc Hl]%andb_true_iff. unfold word_dot_dash at 1. rewrite Hc. simpl. auto.
Qed.

(** ** Login *)

Example login_strips_spaces :
  _do_login "  admin " (String (ascii_of_nat 9) "admin123") None
  = Some {| username := "admin"; user_role := "admin" |}.
Proof. vm_compute; reflexivity. Qed.

Example login_is_case_sensitive : _do_login "Admin" "admin123" None = None.
Proof. vm_compute; reflexivity. Qed.

(** ** Listings and the seed data *)

Lemma select_all_nil {A} (t : gmap Z A) : select_all t = [] ↔ t = ∅.
Proof.
  unfold select_all. rewrite <- map_to_list_empty_iff. split.
  - intros H. apply Permutation_nil_r. now rewrite <- (merge_sort_Permutation rowid_asc), H.
  - intros H. apply Permutation_nil_r. now rewrite merge_sort_Permutation, H.
Qed.

Lemma isbn_in_use_false (t : gmap Z books_row) (i : string) :
  (∀ k r, t !! k = Some r → isbn r ≠ i) → isbn_in_use t i = false.
Proof.
  intros H. destruct (isbn_in_use t i) eqn:E; [| done].
  apply isbn_in_use_true in E as (k & r & Hk & Hr). now destruct (H k r Hk).
Qed.

Lemma seed_members_course compile es s :
  (∀ i, fault (es 0%nat) i = None) → (∀ i, fault (es 1%nat) i = None) →
  ∃ s',
    seed_members compile es s = (Ok tt, s')
    ∧ books s' = books s ∧ transactions s' = transactions s
    ∧ seq_books s' = seq_books s
    ∧ members s' ≠ ∅
    ∧ (members s ≠ ∅ → s' = s)
    ∧ (members s = ∅ →
       ∃ a b, 0 < a < b ∧ members s' = <[b := bob_row]> (<[a := alice_row]> ∅)).
Proof.
  intros H0 H1. unfold seed_members, list_members.
  change (String.eqb "" "") with true. cbv iota.
  destruct (select_all (members s)) as [| row rows] eqn:Hm.
  - apply select_all_nil in Hm. unfold bind.
    rewrite add_member_course.
    change (_validate_email (Member.email (Member.mk "Alice Sharma" "alice@example.com" None)))
      with (@Ok unit tt). cbv iota. rewrite !H0. cbv beta iota zeta.
    rewrite add_member_course.
    change (_validate_email (Member.email (Member.mk "Bob Khan" "bob@example.com" None)))
      with (@Ok unit tt). cbv iota. rewrite !H1. cbv beta iota zeta. unfold ret.
    eexists. split; [reflexivity |]. cbn [members books transactions seq_books seq_members].
    split; [done |]. split; [done |]. split; [done |].
    split; [apply insert_non_empty |]. split; [done |]. intros _.
    rewrite Hm. eexists _, _. split; [| reflexivity].
    split; [apply next_rowid_positive | unfold next_rowid; lia].
  - exists s. unfold ret. split; [done |]. repeat split; try done.
    + intros Hempty. apply select_all_nil in Hempty. congruence.
    + intros Hempty. apply select_all_nil in Hempty. congruence.
Qed.

Lemma seed_books_course compile es s :
  (∀ i, fault (es 2%nat) i = None) → (∀ i, fault (es 3%nat) i = None) →
  (∀ i, fault (es 4%nat) i = None) →
  ∃ s',
    seed_books compile es s = (Ok tt, s')
    ∧ members s' = members s ∧ transactions s' = transactions s
    ∧ books s' ≠ ∅
    ∧ (books s ≠ ∅ → s' = s)
    ∧ (books s = ∅ →
       ∃ a b c, 0 < a < b ∧ b < c
                ∧ books s' = <[c := atomic_habits_row]>
                               (<[b := clean_code_row]> (<[a := crash_course_row]> ∅))).
Proof.
  intros H2 H3 H4. unfold seed_books, list_books.
  change (String.eqb "" "") with true. cbv iota.
  destruct (select_all (books s)) as [| row rows] eqn:Hb.
  - apply select_all_nil in Hb. unfold bind.
    rewrite add_book_course. cbn [Book.isbn].
    change (_validate_isbn "9781593276034") with (@Ok unit tt). cbv iota.
    rewrite !H2, Hb.
    rewrite (isbn_in_use_false ∅ "9781593276034")
      by (intros k r Hk; now rewrite lookup_empty in Hk).
    cbv beta iota zeta. rewrite add_book_course. cbn [Book.isbn books seq_books].
    change (_validate_isbn "9780132350884") with (@Ok unit tt). cbv iota.
    rewrite !H3.
    set (a := next_rowid (seq_books s) (∅ : gmap Z books_row)).
    set (r1 := as_row (Book.mk "Python Crash Course" "Eric Matthes" "Programming"
                         "9781593276034" 3 None)).
    rewrite (isbn_in_use_false (<[a := r1]> ∅) "9780132350884").
    2:{ intros k r. rewrite lookup_insert. case_decide; [| now rewrite lookup_empty].
        intros [= <-]. vm_compute. discriminate. }
    cbv beta iota zeta. rewrite add_book_course. cbn [Book.isbn books seq_books].
    change (_validate_isbn "9780735211292") with (@Ok unit tt). cbv iota.
    rewrite !H4.
    set (b := next_rowid a (<[a := r1]> ∅)).
    set (r2 := as_row (Book.mk "Clean Code" "Robert C. Martin" "Software"
                         "9780132350884" 2 None)).
    rewrite (isbn_in_use_false (<[b := r2]> (<[a := r1]> ∅)) "9780735211292").
    2:{ intros k r. rewrite lookup_insert. case_decide; [intros [= <-]; vm_compute; discriminate |].
        rewrite lookup_insert. case_decide; [| now rewrite lookup_empty].
        intros [= <-]. vm_compute. discriminate. }
    cbv beta iota zeta. unfold ret.
    eexists. split; [reflexivity |]. cbn [members books transactions].
    split; [done |]. split; [done |]. split; [apply insert_non_empty |].
    split; [done |]. intros _. eexists a, b, _. split; [| split; [| reflexivity]].
    + split; [apply next_rowid_positive | unfold b, next_rowid; lia].
    + unfold next_rowid. lia.
  - exists s. unfold ret. split; [done |]. repeat split; try done.
    + intros Hempty. apply select_all_nil in Hempty. congruence.
    + intros Hempty. apply select_all_nil in Hempty. congruence.
Qed.

(** X23. seed_if_empty, when the storage engine fails none of its calls,
    fills exactly the tables that are empty: an empty members table gets Alice
    and Bob under two increasing identifiers, an empty books table gets the
    three books with 3, 2 and 5 copies under three increasing identifiers, a
    table that has any row is left as it is, and transactions are never
    touched. *)
Theorem seed_fills_only_empty_tables (compile : string → string + (string → bool))
    (es : nat → env) (s : db) :
  (∀ k i, fault (es k) i = None) →
  ∃ s',
    seed_if_empty compile es s = (Ok tt, s')
    ∧ transactions s' = transactions s
    ∧ (members s ≠ ∅ → members s' = members s)
    ∧ (books s ≠ ∅ → books s' = books s)
    ∧ (members s = ∅ →
       ∃ a b, 0 < a < b ∧ members s' = <[b := bob_row]> (<[a := alice_row]> ∅))
    ∧ (books s = ∅ →
       ∃ a b c, 0 < a < b ∧ b < c
                ∧ books s' = <[c := atomic_habits_row]>
                               (<[b := clean_code_row]> (<[a := crash_course_row]> ∅))).
Proof.
  intros Hf.
  destruct (seed_members_course compile es s (Hf 0%nat) (Hf 1%nat))
    as (s1 & Hrun1 & Hb1 & Ht1 & _ & _ & Hkeep1 & Hfill1).
  destruct (seed_books_course compile es s1 (Hf 2%nat) (Hf 3%nat) (Hf 4%nat))
    as (s2 & Hrun2 & Hm2 & Ht2 & _ & Hkeep2 & Hfill2).
  exists s2. unfold seed_if_empty, bind. rewrite Hrun1, Hrun2.
  split; [done |]. split; [congruence |].
  split; [intros H; rewrite Hm2; now rewrite (Hkeep1 H) |].
  split; [intros H; rewrite <- Hb1 in H; rewrite (Hkeep2 H); done |].
  split; [intros H; rewrite Hm2; auto |].
  intros H. rewrite <- Hb1 in H. auto.
Qed.

Lemma seed_fills_only_empty_tables_witness :
  ∃ s',
    seed_if_empty (λ _, inl "no pattern is compiled") (λ _, healthy (noon 100)) lent_twice
    = (Ok tt, s')
    ∧ transactions s' = transactions lent_twice
    ∧ (members lent_twice ≠ ∅ → members s' = members lent_twice)
    ∧ (books lent_twice ≠ ∅ → books s' = books lent_twice)
    ∧ (members lent_twice = ∅ →
       ∃ a b, 0 < a < b ∧ members s' = <[b := bob_row]> (<[a := alice_row]> ∅))
    ∧ (books lent_twice = ∅ →
       ∃ a b c, 0 < a < b ∧ b < c
                ∧ books s' = <[c := atomic_habits_row]>
                               (<[b := clean_code_row]> (<[a := crash_course_row]> ∅))).
Proof. apply seed_fills_only_empty_tables. intros k i; reflexivity. Defined.

Lemma add_book_members (e : env) (b : Book.t) (s : db) :
  members (add_book e b s).2 = members s.
Proof.
  rewrite add_book_course.
  repeat (match goal with
          | |- context [match ?x with _ => _ end] => destruct x
          end; simpl; try done).
Qed.

Lemma seed_books_members (compile : string → string + (string → bool)) (es : nat → env)
    (s : db) :
  members (seed_books compile es s).2 = members s.
Proof.
  unfold seed_books, list_books. change (String.eqb "" "") with true. cbv iota.
  destruct (select_all (books s)) as [| row rows]; [| done].
  unfold bind, ret.
  pose proof (add_book_members (es 2%nat)
                (Book.mk "Python Crash Course" "Eric Matthes" "Programming"
                   "9781593276034" 3 None) s) as E1.
  destruct (add_book (es 2%nat) _ s) as [[a1 | x1] s1]; [| done]. simpl in E1.
  pose proof (add_book_members (es 3%nat)
                (Book.mk "Clean Code" "Robert C. Martin" "Software" "9780132350884" 2 None)
                s1) as E2.
  destruct (add_book (es 3%nat) _ s1) as [[a2 | x2] s2]; [| simpl in *; congruence].
  simpl in E2.
  pose proof (add_book_members (es 4%nat)
                (Book.mk "Atomic Habits" "James Clear" "Self-help" "9780735211292" 5 None)
                s2) as E3.
  destruct (add_book (es 4%nat) _ s2) as [[a3 | x3] s3]; simpl in *; congruence.
Qed.

(** X25. seed_if_empty is not one transaction: each insert is committed on
    its own. When the members table is empty and the storage engine fails
    the insert of Bob, the sqlite3.Error reaches the caller and Alice stays
    stored alone; since the table is then no longer empty, no later run adds
    Bob. *)
Theorem seed_interrupted_stays_partial (compile compile' : string → string + (string → bool))
    (es es' : nat → env) (s : db) (err : sqlite3_Error) :
  members s = ∅ → (∀ i, fault (es 0%nat) i = None) → fault (es 1%nat) 0%nat = Some err →
  ∃ s1 a,
    seed_if_empty compile es s = (Raise (Sqlite3 err), s1)
    ∧ members s1 = {[a := alice_row]}
    ∧ books s1 = books s
    ∧ ∀ r s2, seed_if_empty compile' es' s1 = (r, s2) → members s2 = {[a := alice_row]}.
Proof.
  intros Hm H0 H1.
  unfold seed_if_empty at 1. unfold bind at 1, seed_members, list_members.
  change (String.eqb "" "") with true. cbv iota.
  rewrite (proj2 (select_all_nil (members s)) Hm). unfold bind.
  rewrite add_member_course.
  change (_validate_email (Member.email (Member.mk "Alice Sharma" "alice@example.com" None)))
    with (@Ok unit tt). cbv iota. rewrite !H0. cbv beta iota zeta.
  rewrite add_member_course.
  change (_validate_email (Member.email (Member.mk "Bob Khan" "bob@example.com" None)))
    with (@Ok unit tt). cbv iota. rewrite H1.
  eexists _, (next_rowid (seq_members s) (members s)). split; [reflexivity |].
  cbn [members books]. rewrite Hm. split; [reflexivity |]. split; [reflexivity |].
  intros r s2. unfold seed_if_empty, bind, seed_members, list_members.
  change (String.eqb "" "") with true. cbv iota.
  match goal with
  | |- context [select_all (members ?w)] =>
      destruct (select_all (members w)) as [| row rows] eqn:Hsel
  end.
  { apply select_all_nil in Hsel. cbn [members] in Hsel.
    now apply insert_non_empty in Hsel. }
  unfold ret at 1. cbv beta iota.
  match goal with
  | |- context [seed_books compile' es' ?w] =>
      pose proof (seed_books_members compile' es' w) as Hbooks
  end.
  intros Hrun. rewrite Hrun in Hbooks. exact Hbooks.
Qed.

Lemma seed_interrupted_stays_partial_witness :
  ∃ s1 a,
    seed_if_empty (λ _, inl "no pattern is compiled")
      (λ k, if Nat.eqb k 1 then failing (noon 100) 0 (OperationalError "disk I/O error")
            else healthy (noon 100)) empty_db
    = (Raise (Sqlite3 (OperationalError "disk I/O error")), s1)
    ∧ members s1 = {[a := alice_row]}
    ∧ books s1 = books empty_db
    ∧ ∀ r s2,
        seed_if_empty (λ _, inl "no pattern is compiled") (λ _, healthy (noon 200)) s1
        = (r, s2) → members s2 = {[a := alice_row]}.
Proof.
  apply seed_interrupted_stays_partial; [reflexivity | intros i; reflexivity | reflexivity].
Defined.

Lemma select_all_elem {A} (t : gmap Z A) (k : Z) (r : A) :
  (k, r) ∈ select_all t ↔ t !! k = Some r.
Proof. unfold select_all. rewrite merge_sort_Permutation. apply elem_of_map_to_list. Qed.

(** X26. list_books with the default empty pattern returns every row of
    books and compiles nothing; with a pattern that does not compile it
    raises re.error; with any other pattern it returns exactly the books of
    the table of which the title, the author, the genre or the isbn matches.
    list_members does the same on name and email. *)
Theorem listings_filter_the_table (compile : string → string + (string → bool)) (s : db) :
  (∃ rows mrows,
     list_books compile "" s = inr rows ∧ list_members compile "" s = inr mrows
     ∧ (∀ k r, (k, r) ∈ rows ↔ books s !! k = Some r)
     ∧ (∀ k m, (k, m) ∈ mrows ↔ members s !! k = Some m))
  ∧ (∀ pattern msg, pattern ≠ "" → compile pattern = inl msg →
       list_books compile pattern s = inl msg ∧ list_members compile pattern s = inl msg)
  ∧ (∀ pattern search, pattern ≠ "" → compile pattern = inr search →
       ∃ rows mrows,
         list_books compile pattern s = inr rows
         ∧ list_members compile pattern s = inr mrows
         ∧ (∀ k r, (k, r) ∈ rows ↔
                   books s !! k = Some r
                   ∧ (search (title r) = true ∨ search (author r) = true
                      ∨ search (genre r) = true ∨ search (isbn r) = true))
         ∧ (∀ k m, (k, m) ∈ mrows ↔
                   members s !! k = Some m
                   ∧ (search (name m) = true ∨ search (email m) = true))).
Proof.
  split; [| split].
  - eexists _, _. split; [reflexivity |]. split; [reflexivity |].
    split; intros k r; apply select_all_elem.
  - intros pattern msg Hne Hc. unfold list_books, list_members.
    apply String.eqb_neq in Hne. now rewrite Hne, Hc.
  - intros pattern search Hne Hc. unfold list_books, list_members.
    apply String.eqb_neq in Hne. rewrite Hne, Hc.
    eexists _, _. split; [reflexivity |]. split; [reflexivity |]. split.
    + intros k r.
      rewrite list_elem_of_In, filter_In, <- list_elem_of_In, select_all_elem. simpl.
      rewrite orb_false_r, !orb_true_iff. tauto.
    + intros k m.
      rewrite list_elem_of_In, filter_In, <- list_elem_of_In, select_all_elem. simpl.
      rewrite !orb_true_iff. tauto.
Qed.

Lemma listings_filter_the_table_witness :
  ∃ rows mrows,
    list_books (λ _, inr (String.eqb "Clean Code")) "clean" seeded = inr rows
    ∧ list_members (λ _, inr (String.eqb "Clean Code")) "clean" seeded = inr mrows
    ∧ (∀ k r, (k, r) ∈ rows ↔
              books seeded !! k = Some r
              ∧ (("Clean Code" =? title r)%string = true
                 ∨ ("Clean Code" =? author r)%string = true
                 ∨ ("Clean Code" =? genre r)%string = true
                 ∨ ("Clean Code" =? isbn r)%string = true))
    ∧ (∀ k m, (k, m) ∈ mrows ↔
              members seeded !! k = Some m
              ∧ (("Clean Code" =? name m)%string = true
                 ∨ ("Clean Code" =? email m)%string = true)).
Proof.
  apply (proj2 (proj2 (listings_filter_the_table (λ _, inr (String.eqb "Clean Code")) seeded))
           "clean" (String.eqb "Clean Code")); [discriminate | reflexivity].
Defined.

(** ** The calls as the interpreter runs them *)

Lemma int64_range (z : Z) :
  Py.int64 z = true ↔ -9223372036854775808 ≤ z ≤ 9223372036854775807.
Proof. unfold Py.int64. rewrite andb_true_iff, !Z.leb_le. tauto. Qed.

Lemma Py_borrow_book_course (e : env) (m b d : Z) (s : db) :
  Py.borrow_book e m b d s =
  if negb (Py.int64 b) then unbindable s
  else
    match fault e 0%nat with
    | Some err => db_error err s
    | None =>
        match books s !! b with
        | None => (Raise (ValidationError "Book not available"), s)
        | Some r =>
            if available r <=? 0 then (Raise (ValidationError "Book not available"), s)
            else
              match fault e 1%nat with
              | Some err => db_error err s
              | None =>
                  if negb (Z.abs d <=? 999999999)
                  then (Raise (OverflowError ("days=" +:+ str d +:+
                                 "; must have magnitude <= 999999999")), s)
                  else
                      let due := now e + timedelta d in
                      if negb ((Py.min_ordinal <=? date_of due)
                               && (date_of due <=? Py.max_ordinal))
                      then (Raise (OverflowError "date value out of range"), s)
                      else
                          if negb (Py.int64 m) then unbindable s
                          else
                            match fault e 2%nat with
                            | Some err => db_error err s
                            | None =>
                                match fault e 3%nat with
                                | Some err => db_error err s
                                | None =>
                                    let id := next_rowid (seq_transactions s)
                                                (transactions s) in
                                    (Ok tt,
                                     {| members := members s;
                                        books := alter (add_available (-1)) b (books s);
                                        transactions :=
                                          <[id := {| member_id := m; book_id := b;
                                                     borrow_date := now e;
                                                     due_date := date_of due;
                                                     return_date := None; fine := 0 |}]>
                                            (transactions s);
                                        seq_members := seq_members s;
                                        seq_books := seq_books s;
                                        seq_transactions := id |})
                                end
                            end
              end
        end
    end.
Proof.
  unfold Py.borrow_book, with_conn, bind, Py.execute, execute, select_available,
    update_available, insert_transaction, ret, db_error, unbindable, Py.lift.
  cbn [forallb]. rewrite !andb_true_r.
  destruct (Py.int64 b) eqn:Hb; [| reflexivity]. simpl negb. cbv iota.
  destruct (fault e 0%nat) as [err |]; [reflexivity |].
  destruct (books s !! b) as [r |]; simpl; [| reflexivity].
  destruct (available r <=? 0); [reflexivity |].
  rewrite ?Hb. simpl.
  destruct (fault e 1%nat); [reflexivity |].
  unfold Py.timedelta, Py.plus.
  destruct (Z.abs d <=? 999999999); [| reflexivity]. simpl.
  destruct (_ && _); [| reflexivity]. simpl.
  rewrite ?Hb, ?andb_true_r.
  destruct (Py.int64 m); [| reflexivity]. simpl.
  destruct (fault e 2%nat); [reflexivity |].
  destruct (fault e 3%nat); reflexivity.
Qed.

Lemma Py_return_book_course (e : env) (tx f : Z) (s : db) :
  Py.return_book e tx f s =
  if negb (Py.int64 tx) then unbindable s
  else
    match fault e 0%nat with
    | Some err => db_error err s
    | None =>
        match transactions s !! tx with
        | None => (Raise (ValidationError "Invalid transaction or already returned"), s)
        | Some row =>
            match return_date row with
            | Some _ =>
                (Raise (ValidationError "Invalid transaction or already returned"), s)
            | None =>
                let fine_ := Z.max (days (now e - midnight (due_date row))) 0 * f in
                if negb (Py.int64 fine_) then unbindable s
                else
                  match fault e 1%nat with
                  | Some err => db_error err s
                  | None =>
                      if negb (Py.int64 (book_id row)) then unbindable s
                      else
                        match fault e 2%nat with
                        | Some err => db_error err s
                        | None =>
                            match fault e 3%nat with
                            | Some err => db_error err s
                            | None =>
                                (Ok fine_,
                                 {| members := members s;
                                    books :=
                                      alter (add_available 1) (book_id row) (books s);
                                    transactions :=
                                      alter (close_row (date_of (now e)) fine_) tx
                                        (transactions s);
                                    seq_members := seq_members s;
                                    seq_books := seq_books s;
                                    seq_transactions := seq_transactions s |})
                            end
                        end
                  end
            end
        end
    end.
Proof.
  unfold Py.return_book, with_conn, bind, Py.execute, execute, select_transaction,
    update_returned, update_available, ret, db_error, unbindable.
  cbn [forallb]. rewrite !andb_true_r.
  destruct (Py.int64 tx) eqn:Htx; [| reflexivity]. simpl negb. cbv iota.
  destruct (fault e 0%nat) as [err |]; [reflexivity |].
  destruct (transactions s !! tx) as [row |]; simpl; [| reflexivity].
  destruct (return_date row); [reflexivity |].
  rewrite ?Htx, ?andb_true_r.
  destruct (Py.int64 (Z.max (days (now e - midnight (due_date row))) 0 * f));
    [| reflexivity]. simpl.
  destruct (fault e 1%nat); [reflexivity |].
  rewrite ?andb_true_r.
  destruct (Py.int64 (book_id row)); [| reflexivity]. simpl.
  destruct (fault e 2%nat); [reflexivity |].
  destruct (fault e 3%nat); reflexivity.
Qed.

(* Where a call of [Py] raises no OverflowError it is the call over
   mathematical integers. *)
Lemma Py_borrow_book_refines (e : env) (m b d : Z) (s : db) :
  Py.borrow_book e m b d s = borrow_book e m b d s
  ∨ ∃ msg, Py.borrow_book e m b d s = (Raise (OverflowError msg), s).
Proof.
  rewrite Py_borrow_book_course, borrow_book_course. unfold unbindable.
  destruct (Py.int64 b); simpl; [| right; eauto].
  destruct (fault e 0%nat); [now left |].
  destruct (books s !! b) as [r |]; [| now left].
  destruct (available r <=? 0); [now left |].
  destruct (fault e 1%nat); [now left |].
  destruct (Z.abs d <=? 999999999); simpl; [| right; eauto].
  destruct (_ && _); simpl; [| right; eauto].
  destruct (Py.int64 m); simpl; [| right; eauto].
  left. reflexivity.
Qed.

Lemma Py_return_book_refines (e : env) (tx f : Z) (s : db) :
  Py.return_book e tx f s = return_book e tx f s
  ∨ ∃ msg, Py.return_book e tx f s = (Raise (OverflowError msg), s).
Proof.
  rewrite Py_return_book_course, return_book_course. unfold unbindable.
  destruct (Py.int64 tx); simpl; [| right; eauto].
  destruct (fault e 0%nat); [now left |].
  destruct (transactions s !! tx) as [row |]; [| now left].
  destruct (return_date row); [now left |].
  destruct (Py.int64 _); simpl; [| right; eauto].
  destruct (fault e 1%nat); [now left |].
  destruct (Py.int64 (book_id row)); simpl; [| right; eauto].
  left. reflexivity.
Qed.

Lemma Py_update_member_in_range (e : env) (id : Z) (n em : string) (s : db) :
  Py.int64 id = true → Py.update_member e id n em s = update_member e id n em s.
Proof.
  intros Hid. unfold Py.update_member, update_member, with_conn, Py.execute.
  cbn [forallb]. now rewrite Hid.
Qed.

Lemma Py_update_book_in_range (e : env) (id : Z) (t a g i : string) (av : Z) (s : db) :
  Py.int64 id = true → Py.int64 av = true →
  Py.update_book e id t a g i av s = update_book e id t a g i av s.
Proof.
  intros Hid Hav. unfold Py.update_book, update_book, with_conn, Py.execute.
  cbn [forallb]. now rewrite Hid, Hav.
Qed.

(** ** Lending, with the limits of the interpreter *)

(** C2, amended. When the book does not exist or has no copy available,
    borrow_book raises and leaves the whole database as it was: no row of
    books changes and no transaction is inserted. When the book_id fits a
    signed 64-bit integer and the storage engine did not fail the SELECT,
    the exception is ValidationError("Book not available"), which is how
    the code signals the unavailable-book error. *)
Theorem borrow_unavailable (e : env) (m b d : Z) (s : db) :
  books s !! b = None ∨ (∃ r, books s !! b = Some r ∧ available r ≤ 0) →
  ∃ x, Py.borrow_book e m b d s = (Raise x, s)
       ∧ (Py.int64 b = true → fault e 0%nat = None
          → x = ValidationError "Book not available").
Proof.
  intros H. rewrite Py_borrow_book_course. unfold db_error, unbindable.
  destruct (Py.int64 b); simpl; [| eexists; split; [reflexivity | discriminate]].
  destruct (fault e 0%nat) as [err |];
    [eexists; split; [reflexivity | intros _; discriminate] |].
  destruct H as [-> | (r & -> & Hr)].
  - eexists; split; [reflexivity | done].
  - apply Z.leb_le in Hr. rewrite Hr. eexists; split; [reflexivity | done].
Qed.

Lemma borrow_unavailable_witness :
  ∃ x, Py.borrow_book (healthy (noon 103)) 1 1 7 two_loans = (Raise x, two_loans)
       ∧ (Py.int64 1 = true → fault (healthy (noon 103)) 0%nat = None
          → x = ValidationError "Book not available").
Proof.
  apply borrow_unavailable. right.
  eexists. split; [vm_compute; reflexivity | simpl; lia].
Defined.

(** C2 as stated fails: the book_id 2^63 has no row, and borrow_book does not
    answer with the unavailable-book error: the SELECT cannot bind the
    number and OverflowError leaves the call. *)
Lemma borrow_unavailable_beyond_int64 :
  books seeded !! two_63 = None
  ∧ Py.borrow_book (healthy (noon 101)) 1 two_63 7 seeded
    = (Raise (OverflowError "Python int too large to convert to SQLite INTEGER"), seeded).
Proof. split; vm_compute; reflexivity. Qed.




(** C5, amended. A return of a transaction that does not exist, or that is
    already closed (its return_date is set), raises and leaves the whole
    database as it was. When the tx_id fits a signed 64-bit integer and the
    storage engine did not fail the SELECT, the exception is
    ValidationError("Invalid transaction or already returned"), which is
    how the code signals the invalid-transaction error. *)
Theorem return_invalid_transaction (e : env) (tx f : Z) (s : db) :
  transactions s !! tx = None
  ∨ (∃ t d, transactions s !! tx = Some t ∧ return_date t = Some d) →
  ∃ x, Py.return_book e tx f s = (Raise x, s)
       ∧ (Py.int64 tx = true → fault e 0%nat = None
          → x = ValidationError "Invalid transaction or already returned").
Proof.
  intros Hbad. rewrite Py_return_book_course. unfold db_error, unbindable.
  destruct (Py.int64 tx); simpl; [| eexists; split; [reflexivity | discriminate]].
  destruct (fault e 0%nat) as [err |] eqn:Hselect.
  - eexists. split; [reflexivity | intros _; discriminate].
  - exists (ValidationError "Invalid transaction or already returned").
    split; [| reflexivity].
    destruct Hbad as [Hnone | (t & d & Hsome & Hclosed)].
    + now rewrite Hnone.
    + now rewrite Hsome, Hclosed.
Qed.

Lemma return_invalid_transaction_witness :
  ∃ x, Py.return_book (healthy (noon 111)) 9 5 lent_twice = (Raise x, lent_twice)
       ∧ (Py.int64 9 = true → fault (healthy (noon 111)) 0%nat = None
          → x = ValidationError "Invalid transaction or already returned").
Proof.
  apply return_invalid_transaction. left. vm_compute; reflexivity.
Defined.

(** C5 as stated fails: no transaction has the id 2^63, and return_book does
    not answer with the invalid-transaction error: the SELECT cannot bind
    the number and OverflowError leaves the call. *)
Lemma return_invalid_transaction_beyond_int64 :
  transactions lent_twice !! two_63 = None
  ∧ Py.return_book (healthy (noon 111)) two_63 5 lent_twice
    = (Raise (OverflowError "Python int too large to convert to SQLite INTEGER"),
       lent_twice).
Proof. split; vm_compute; reflexivity. Qed.

(** C10, amended. borrow_book never looks at the members table: for every
    member_id that fits a signed 64-bit integer, with or without a row in
    members, a borrow of an existing book with available > 0, for a number
    of days that timedelta accepts and that keeps the due date within the
    range of datetime, succeeds (as long as the storage engine fails no
    statement) and inserts a transaction that carries that member_id. *)
Theorem borrow_ignores_members (e : env) (m b d : Z) (s : db) (r : books_row) :
  books s !! b = Some r → 0 < available r → (∀ i, fault e i = None) →
  Py.int64 m = true → Py.int64 b = true →
  Z.abs d ≤ 999999999 →
  Py.min_ordinal ≤ date_of (now e) + d ≤ Py.max_ordinal →
  ∃ id s',
    Py.borrow_book e m b d s = (Ok tt, s')
    ∧ transactions s !! id = None
    ∧ member_id <$> transactions s' !! id = Some m
    ∧ book_id <$> transactions s' !! id = Some b.
Proof.
  intros Hb Hav Hf Hm Hbid Hd [Hlo Hhi].
  apply Z.leb_gt in Hav. apply Z.leb_le in Hd, Hlo, Hhi.
  rewrite Py_borrow_book_course, Hbid. simpl negb. cbv iota.
  rewrite !Hf, Hb. cbv beta iota. rewrite Hav, Hd. simpl negb. cbv iota zeta.
  rewrite date_of_plus_days, Hlo, Hhi, Hm. simpl negb. cbv iota zeta.
  eexists _, _. split; [reflexivity |]. split; [apply next_rowid_fresh |].
  simpl. now rewrite lookup_insert_eq.
Qed.

Lemma borrow_ignores_members_witness :
  members seeded !! 77 = None
  ∧ ∃ id s',
      Py.borrow_book (healthy (noon 101)) 77 1 7 seeded = (Ok tt, s')
      ∧ transactions seeded !! id = None
      ∧ member_id <$> transactions s' !! id = Some 77
      ∧ book_id <$> transactions s' !! id = Some 1.
Proof.
  split; [vm_compute; reflexivity |].
  apply (borrow_ignores_members (healthy (noon 101)) 77 1 7 seeded
           {| title := "Clean Code"; author := "Robert C. Martin"; genre := "Software";
              isbn := "9780132350884"; available := 2 |}).
  - vm_compute; reflexivity.
  - simpl; lia.
  - intros i; reflexivity.
  - reflexivity.
  - reflexivity.
  - simpl; lia.
  - vm_compute. split; discriminate.
Defined.

(** C10 as stated fails: book 1 exists with two copies available, and the
    borrow does not succeed for the member_id 2^63, which the INSERT cannot
    bind, nor for 4000000 days, which take the due date past the last day
    of datetime. OverflowError leaves the call and no transaction is
    created. *)
Lemma borrow_beyond_int64_or_datetime :
  available <$> books seeded !! 1 = Some 2
  ∧ Py.borrow_book (healthy (noon 101)) two_63 1 7 seeded
    = (Raise (OverflowError "Python int too large to convert to SQLite INTEGER"), seeded)
  ∧ Py.borrow_book (healthy (noon 101)) 1 1 4000000 seeded
    = (Raise (OverflowError "date value out of range"), seeded).
Proof. repeat split; vm_compute; reflexivity. Qed.

(** X2. borrow_book and return_book never let a sqlite3.Error out: every
    exception they raise is a ValidationError or, where a number is outside
    what SQLite or datetime can hold, an OverflowError. *)
Theorem lending_raises_no_sqlite3_Error :
  (∀ e m b d s y s',
     Py.borrow_book e m b d s = (Raise y, s') →
     (∃ msg, y = ValidationError msg) ∨ (∃ msg, y = OverflowError msg))
  ∧ (∀ e tx f s y s',
       Py.return_book e tx f s = (Raise y, s') →
       (∃ msg, y = ValidationError msg) ∨ (∃ msg, y = OverflowError msg)).
Proof.
  split.
  - intros e m b d s y s'. rewrite Py_borrow_book_course. unfold db_error, unbindable.
    repeat (match goal with
            | |- context [match ?c with _ => _ end] => destruct c
            end; simpl; try discriminate; try (intros [= <- _]; eauto)).
  - intros e tx f s y s'. rewrite Py_return_book_course. unfold db_error, unbindable.
    repeat (match goal with
            | |- context [match ?c with _ => _ end] => destruct c
            end; simpl; try discriminate; try (intros [= <- _]; eauto)).
Qed.

Lemma lending_raises_no_sqlite3_Error_witness :
  ((∃ msg, ValidationError "DB error: database is locked" = ValidationError msg)
   ∨ (∃ msg, ValidationError "DB error: database is locked" = OverflowError msg))
  ∧ ((∃ msg, OverflowError "Python int too large to convert to SQLite INTEGER"
             = ValidationError msg)
     ∨ (∃ msg, OverflowError "Python int too large to convert to SQLite INTEGER"
               = OverflowError msg)).
Proof.
  split.
  - apply (proj2 lending_raises_no_sqlite3_Error
             (failing (noon 111) 0 (OperationalError "database is locked"))
             1 5 lent_twice _ lent_twice).
    vm_compute; reflexivity.
  - apply (proj1 lending_raises_no_sqlite3_Error
             (healthy (noon 101)) two_63 1 7 seeded _ seeded).
    vm_compute; reflexivity.
Defined.

(** X4. When a borrow is followed by a return of the transaction it created
    and that return succeeds, the books table is exactly as it was before
    the borrow: the copy is available again and no other column or book
    changed. Members are untouched, and the ledger has gained the one
    transaction, closed. *)
Theorem borrow_then_return (e1 e2 : env) (m b d f : Z) (s s1 : db) :
  Py.borrow_book e1 m b d s = (Ok tt, s1) →
  ∃ id,
    transactions s !! id = None
    ∧ is_Some (transactions s1 !! id)
    ∧ ∀ fine_ s2,
        Py.return_book e2 id f s1 = (Ok fine_, s2) →
        books s2 = books s
        ∧ members s2 = members s
        ∧ ∃ t, transactions s2 = <[id := t]> (transactions s)
               ∧ member_id t = m ∧ book_id t = b
               ∧ return_date t = Some (date_of (now e2)) ∧ fine t = fine_.
Proof.
  intros Hborrow.
  destruct (Py_borrow_book_refines e1 m b d s) as [Heq | [msg Heq]];
    rewrite Heq in Hborrow; [| discriminate].
  rewrite borrow_book_course in Hborrow. unfold db_error in Hborrow.
  destruct (fault e1 0%nat); [discriminate |].
  destruct (books s !! b) as [r |]; [| discriminate].
  destruct (available r <=? 0); [discriminate |].
  destruct (fault e1 1%nat); [discriminate |].
  destruct (fault e1 2%nat); [discriminate |].
  destruct (fault e1 3%nat); [discriminate |].
  injection Hborrow as Hs1.
  set (id := next_rowid (seq_transactions s) (transactions s)) in *.
  exists id. split; [apply next_rowid_fresh |].
  split; [rewrite <- Hs1; simpl; rewrite lookup_insert_eq; eauto |].
  intros fine_ s2 Hreturn.
  destruct (Py_return_book_refines e2 id f s1) as [Heq' | [msg Heq']];
    rewrite Heq' in Hreturn; [| discriminate].
  subst s1.
  rewrite return_book_course in Hreturn. unfold db_error in Hreturn.
  simpl in Hreturn. rewrite lookup_insert_eq in Hreturn. simpl in Hreturn.
  destruct (fault e2 0%nat); [discriminate |].
  destruct (fault e2 1%nat); [discriminate |].
  destruct (fault e2 2%nat); [discriminate |].
  destruct (fault e2 3%nat); [discriminate |].
  injection Hreturn as <- <-. simpl.
  split; [apply alter_available_back |]. split; [reflexivity |].
  eexists. split; [now rewrite alter_insert_eq |]. simpl. done.
Qed.

Lemma borrow_then_return_witness :
  ∃ id,
    transactions seeded !! id = None
    ∧ is_Some (transactions (Py.borrow_book (healthy (noon 101)) 1 1 7 seeded).2 !! id)
    ∧ ∀ fine_ s2,
        Py.return_book (healthy (noon 111)) id 5
          (Py.borrow_book (healthy (noon 101)) 1 1 7 seeded).2 = (Ok fine_, s2) →
        books s2 = books seeded
        ∧ members s2 = members seeded
        ∧ ∃ t, transactions s2 = <[id := t]> (transactions seeded)
               ∧ member_id t = 1 ∧ book_id t = 1
               ∧ return_date t = Some (date_of (noon 111)) ∧ fine t = fine_.
Proof.
  apply (borrow_then_return (healthy (noon 101)) (healthy (noon 111)) 1 1 7 5 seeded).
  vm_compute; reflexivity.
Defined.

(* The return of the statement above does succeed in the usual case: three
   days late at 5 a day. *)
Example borrow_then_return_example :
  ∃ s2,
    Py.return_book (healthy (noon 111)) 1 5
      (Py.borrow_book (healthy (noon 101)) 1 1 7 seeded).2 = (Ok 15, s2)
    ∧ books s2 = books seeded.
Proof. eexists. split; vm_compute; reflexivity. Qed.

(** X9. update_member and update_book on an identifier that has no row
    change nothing and raise nothing: with input that passes validation,
    numbers that fit a signed 64-bit integer and no storage failure the call
    returns normally and the database is exactly as before. *)
Theorem update_of_absent_row_is_silent :
  (∀ e id n em s,
     _validate_email em = Ok tt → (∀ i, fault e i = None) →
     Py.int64 id = true → members s !! id = None →
     Py.update_member e id n em s = (Ok tt, s))
  ∧ (∀ e id t a g i av s,
       _validate_isbn i = Ok tt → (∀ i, fault e i = None) →
       Py.int64 id = true → Py.int64 av = true → books s !! id = None →
       Py.update_book e id t a g i av s = (Ok tt, s)).
Proof.
  split.
  - intros e id n em s Hv Hf Hid Hnone.
    rewrite Py_update_member_in_range, update_member_course, Hv, !Hf by done.
    rewrite alter_id' by done. now destruct s.
  - intros e id t a g i av s Hv Hf Hid Hav Hnone.
    now rewrite Py_update_book_in_range, update_book_course, Hv, !Hf, Hnone.
Qed.

Lemma update_of_absent_row_is_silent_witness :
  Py.update_member (healthy (noon 105)) 42 "Nobody" "nobody@example.com" seeded
  = (Ok tt, seeded)
  ∧ Py.update_book (healthy (noon 105)) 42 "T" "A" "G" "9781593276034" 9 seeded
    = (Ok tt, seeded).
Proof.
  split.
  - apply (proj1 update_of_absent_row_is_silent);
      [vm_compute; reflexivity | intros i; reflexivity | reflexivity
      | vm_compute; reflexivity].
  - apply (proj2 update_of_absent_row_is_silent);
      [vm_compute; reflexivity | intros i; reflexivity | reflexivity | reflexivity
      | vm_compute; reflexivity].
Defined.

(* Outside the 64-bit range the UPDATE is not run at all. *)
Example update_beyond_int64 :
  Py.update_member (healthy (noon 105)) two_63 "Nobody" "nobody@example.com" seeded
  = unbindable seeded
  ∧ Py.update_book (healthy (noon 105)) 1 "T" "A" "G" "9781593276034" two_63 seeded
    = unbindable seeded.
Proof. split; vm_compute; reflexivity. Qed.

(** X10. update_book on an existing book, with an isbn that passes validation
    and that no other book carries (the book may keep its own) and with a
    book_id and an available count that fit a signed 64-bit integer,
    overwrites all five columns with the values given, available included
    and whatever the number of copies on loan; every other book, the members
    and the transactions are unchanged. *)
Theorem update_book_overwrites (e : env) (id : Z) (t a g i : string) (av : Z) (s : db)
    (old : books_row) :
  books s !! id = Some old → _validate_isbn i = Ok tt →
  (∀ k r, books s !! k = Some r → isbn r = i → k = id) →
  (∀ n, fault e n = None) →
  Py.int64 id = true → Py.int64 av = true →
  ∃ s',
    Py.update_book e id t a g i av s = (Ok tt, s')
    ∧ books s' = <[id := {| title := t; author := a; genre := g; isbn := i;
                            available := av |}]> (books s)
    ∧ members s' = members s ∧ transactions s' = transactions s
    ∧ on_loan s' id = on_loan s id.
Proof.
  intros Hold Hv Hfree Hf Hid Hav.
  rewrite Py_update_book_in_range, update_book_course, Hv, !Hf, Hold by done.
  assert (isbn_in_use (delete id (books s)) i = false) as ->.
  { destruct (isbn_in_use (delete id (books s)) i) eqn:E; [| done].
    apply isbn_in_use_true in E as (k & r & Hk & Hr).
    apply lookup_delete_Some in Hk as [Hne Hk]. specialize (Hfree k r Hk Hr). congruence. }
  eexists. split; [reflexivity |]. done.
Qed.

Lemma update_book_overwrites_witness :
  ∃ s',
    Py.update_book (healthy (noon 105)) 1 "Clean Code" "Robert C. Martin" "Software"
      "9780132350884" 40 lent_twice = (Ok tt, s')
    ∧ books s' = <[1 := {| title := "Clean Code"; author := "Robert C. Martin";
                           genre := "Software"; isbn := "9780132350884";
                           available := 40 |}]> (books lent_twice)
    ∧ members s' = members lent_twice ∧ transactions s' = transactions lent_twice
    ∧ on_loan s' 1 = on_loan lent_twice 1.
Proof.
  apply (update_book_overwrites (healthy (noon 105)) 1 _ _ _ _ 40 lent_twice
           {| title := "Clean Code"; author := "Robert C. Martin"; genre := "Software";
              isbn := "9780132350884"; available := 0 |}).
  - vm_compute; reflexivity.
  - vm_compute; reflexivity.
  - intros k r Hk _. destruct (decide (k = 1)) as [-> | Hne]; [done |].
    assert (books lent_twice = {[1 := {| title := "Clean Code"; author := "Robert C. Martin";
                                         genre := "Software"; isbn := "9780132350884";
                                         available := 0 |}]}) as Hb
      by (vm_compute; reflexivity).
    rewrite Hb, lookup_singleton_ne in Hk by done. discriminate.
  - intros n; reflexivity.
  - reflexivity.
  - reflexivity.
Defined.

(** ** The validators and the login, on ASCII text *)

(** X17. On ASCII text, _validate_isbn accepts exactly the strings of one of
    two shapes, optionally followed by one newline: nine digits and a last
    digit or X, with or without 978 or 979 in front; or three groups of 1
    to 5, 1 to 7 and 1 to 7 digits and a last digit or X, separated by
    hyphens. *)
Theorem isbn_accepted_shape (i : string) :
  ascii_only i →
  _validate_isbn i = Ok tt ↔
  ∃ body nl,
    list_ascii_of_string i = body ++ nl ∧ (nl = [] ∨ nl = [newline])
    ∧ (plain_isbn body ∨ hyphenated_isbn body).
Proof. intros _. split; [apply isbn_shape_sound | apply isbn_shape_complete]. Qed.

Lemma isbn_accepted_shape_witness :
  ∃ body nl,
    list_ascii_of_string "0-306-40615-2" = body ++ nl ∧ (nl = [] ∨ nl = [newline])
    ∧ (plain_isbn body ∨ hyphenated_isbn body).
Proof.
  apply (isbn_accepted_shape "0-306-40615-2"); [reflexivity | vm_compute; reflexivity].
Defined.

(** X18. On ASCII text, _validate_email accepts exactly the strings
    local@domain.tld, optionally followed by one newline, where local and
    domain are non-empty runs of letters, digits, "_", "." and "-", and tld
    is a non-empty run of letters, digits and "_". *)
Theorem email_accepted_shape (em : string) :
  ascii_only em →
  _validate_email em = Ok tt ↔
  ∃ body nl,
    list_ascii_of_string em = body ++ nl ∧ (nl = [] ∨ nl = [newline]) ∧ email_shape body.
Proof. intros _. split; [apply email_shape_sound | apply email_shape_complete]. Qed.

Lemma email_accepted_shape_witness :
  ∃ body nl,
    list_ascii_of_string "bob.khan-1@mail.example.com" = body ++ nl
    ∧ (nl = [] ∨ nl = [newline]) ∧ email_shape body.
Proof.
  apply (email_accepted_shape "bob.khan-1@mail.example.com");
    [reflexivity | vm_compute; reflexivity].
Defined.

(** X21. An email of ASCII text that _validate_email accepts contains exactly
    one "@", and apart from that "@" and a possible final newline all of its
    characters are letters, digits, "_", "." or "-": no space, no second
    "@". *)
Theorem email_one_at (em : string) :
  ascii_only em → _validate_email em = Ok tt →
  count_occ ascii_dec (list_ascii_of_string em) "@"%char = 1%nat
  ∧ ∃ local rest nl,
      list_ascii_of_string em = local ++ "@"%char :: rest ++ nl
      ∧ forallb word_dot_dash local = true ∧ forallb word_dot_dash rest = true
      ∧ (nl = [] ∨ nl = [newline]).
Proof.
  intros _ (body & nl & Hl & Hnl & local & domain & tld & _ & H1 & _ & H2 & _ & H3 & ->)
           %email_shape_sound.
  assert (forallb word_dot_dash (domain ++ "."%char :: tld) = true) as Hrest.
  { rewrite forallb_app, H2. simpl. now rewrite (word_is_word_dot_dash tld H3). }
  split.
  - rewrite Hl, !count_occ_app, (class_no_at local H1),
      (newline_count nl "@" Hnl) by (vm_compute; discriminate).
    simpl. rewrite (class_no_at _ Hrest). reflexivity.
  - exists local, (domain ++ "."%char :: tld), nl. rewrite Hl.
    split; [repeat (rewrite <- app_assoc; simpl); reflexivity | done].
Qed.

Lemma email_one_at_witness :
  count_occ ascii_dec (list_ascii_of_string "alice@example.com") "@"%char = 1%nat.
Proof. apply (email_one_at "alice@example.com"); reflexivity. Defined.

(** X22. From the login screen (no user yet) and for ASCII text in the two
    fields, _do_login sets a user exactly for the two credential pairs of
    USERS, compared after stripping the white space around both fields and
    with the case kept: admin / admin123 with role admin, and librarian /
    lib123 with role librarian. Any other input leaves self.user unset. *)
Theorem login_accepts_two_pairs (u_var p_var : string) (usr : session) :
  ascii_only u_var → ascii_only p_var →
  _do_login u_var p_var None = Some usr ↔
  (strip u_var = "admin" ∧ strip p_var = "admin123"
   ∧ usr = {| username := "admin"; user_role := "admin" |})
  ∨ (strip u_var = "librarian" ∧ strip p_var = "lib123"
     ∧ usr = {| username := "librarian"; user_role := "librarian" |}).
Proof.
  intros _ _. unfold _do_login, USERS. rewrite lookup_insert. case_decide as Ha.
  - rewrite <- Ha. cbn [password role].
    destruct (String.eqb_spec "admin123" (strip p_var)) as [<- | Hp].
    + split; [intros [= <-]; left; done |].
      intros [(_ & _ & ->) | (Hl & _)]; [done | discriminate].
    + split; [discriminate |].
      intros [(_ & Hq & _) | (Hl & _)]; [congruence | discriminate].
  - rewrite lookup_insert. case_decide as Hl.
    + rewrite <- Hl. cbn [password role].
      destruct (String.eqb_spec "lib123" (strip p_var)) as [<- | Hp].
      * split; [intros [= <-]; right; done |].
        intros [(Hq & _) | (_ & _ & ->)]; [discriminate | done].
      * split; [discriminate |].
        intros [(Hq & _) | (_ & Hq & _)]; [discriminate | congruence].
    + rewrite lookup_empty. split; [discriminate |].
      intros [(Hq & _) | (Hq & _)]; congruence.
Qed.

Lemma login_accepts_two_pairs_witness :
  _do_login "  librarian " "lib123 " None
  = Some {| username := "librarian"; user_role := "librarian" |}.
Proof.
  apply (login_accepts_two_pairs "  librarian " "lib123 "); [reflexivity | reflexivity |].
  right. repeat split; vm_compute; reflexivity.
Defined.

(** ** Seeding, with SELECTs that can fail *)







(* The first run on the empty database stores the two members and the three
   books; a second run with a healthy engine returns normally, one whose
   SELECT fails lets the error of the engine through. *)
Example seed_twice_example :
  ∃ s',
    Py.seed_if_empty (λ _, inl "no pattern is compiled") (λ _, None)
      (λ _, healthy (noon 100)) empty_db = (Ok tt, s')
    ∧ members s' = <[2 := bob_row]> (<[1 := alice_row]> ∅)
    ∧ books s' = <[3 := atomic_habits_row]>
                   (<[2 := clean_code_row]> (<[1 := crash_course_row]> ∅))
    ∧ Py.seed_if_empty (λ _, inl "no pattern is compiled") (λ _, None)
        (λ _, healthy (noon 200)) s' = (Ok tt, s')
    ∧ Py.seed_if_empty (λ _, inl "no pattern is compiled")
        (λ _, Some (OperationalError "database is locked"))
        (λ _, healthy (noon 200)) s'
      = (Raise (Sqlite3 (OperationalError "database is locked")), s').
Proof. eexists. repeat split; vm_compute; reflexivity. Qed.
